(** * EcoFinds marketplace: the checkout routes of the backend

    A shallow embedding of the purchase, buy-now, product-delete and
    purchase-history routes of [ecofinds-backend] (Express over one shared
    sqlite3 connection), with the tables they touch and the callbacks they
    register, followed by the properties of the checkout flow. *)

From stdpp Require Import gmap strings list pretty.

Local Open Scope Z_scope.
#[local] Set Warnings "-register-all".
#[local] Set Warnings "-clear-no-such-hyp".

(** ** Tables

    Only the columns the checkout routes read or write are kept; prices are
    amounts in hundredths, the routes copy them and never compute with them. *)

(** A row of [products], keyed by its [id INTEGER PRIMARY KEY]. *)
Record product := {
  p_title : string;
  p_price : Z;
  p_user_id : Z;
  p_status : string;
}.

(** A row of [purchases]. *)
Record purchase := {
  pu_id : Z;
  pu_buyer_id : Z;
  pu_product_id : Z;
  pu_seller_id : Z;
  pu_price : Z;
}.

Record tables := {
  users : gmap Z string;            (* id -> username *)
  products : gmap Z product;
  cart : gset (Z * Z);              (* UNIQUE(user_id, product_id) *)
  purchases : list purchase;        (* in insertion order *)
  purchases_seq : Z;                (* AUTOINCREMENT: largest id handed out *)
}.

(** The connection: the current content of the tables and, while a
    transaction is open, the content to which ROLLBACK returns. *)
Record db := {
  tabs : tables;
  txn : option tables;
}.

Definition set_products (f : gmap Z product → gmap Z product) (t : tables) : tables :=
  {| users := users t; products := f (products t); cart := cart t;
     purchases := purchases t; purchases_seq := purchases_seq t |}.

Definition set_cart (f : gset (Z * Z) → gset (Z * Z)) (t : tables) : tables :=
  {| users := users t; products := products t; cart := f (cart t);
     purchases := purchases t; purchases_seq := purchases_seq t |}.

Definition add_purchase (buyer_id product_id seller_id price : Z) (t : tables) : tables :=
  let id := purchases_seq t + 1 in
  {| users := users t; products := products t; cart := cart t;
     purchases := purchases t ++ [ {| pu_id := id; pu_buyer_id := buyer_id;
                                     pu_product_id := product_id;
                                     pu_seller_id := seller_id;
                                     pu_price := price |} ];
     purchases_seq := id |}.

Definition mark_sold (p : product) : product :=
  {| p_title := p_title p; p_price := p_price p; p_user_id := p_user_id p;
     p_status := "sold" |}.

(** ** SQL statements issued by the routes *)

Inductive stmt :=
| begin_transaction
| commit
| rollback
  (* SELECT * FROM products WHERE id = ? AND status = "available" *)
| select_available (id : Z)
  (* INSERT INTO purchases (buyer_id, product_id, seller_id, price) VALUES (?, ?, ?, ?) *)
| insert_purchase (buyer_id product_id seller_id price : Z)
  (* UPDATE products SET status = "sold" WHERE id = ? *)
| update_sold (id : Z)
  (* DELETE FROM cart WHERE user_id = ? AND product_id = ? *)
| delete_cart (user_id product_id : Z)
  (* DELETE FROM products WHERE id = ? AND user_id = ? *)
| delete_product (id user_id : Z)
  (* SELECT p.*, pr.title, .., u.username FROM purchases p JOIN products pr ..
     JOIN users u .. WHERE p.buyer_id = ? *)
| select_purchases (buyer_id : Z).

(** A row of the purchase history: the purchase, the product's title and the
    seller's name. *)
Definition history_row : Type := purchase * string * string.

(** What a statement hands to its callback: an error, the row of [db.get],
    [this.lastID] and [this.changes] of [db.run] ([lastID] means something
    after an INSERT only), or the rows of [db.all]. *)
Inductive result :=
| failed (message : string)
| got (row : option product)
| ran (lastID : Z) (changes : Z)
| all (rows : list history_row).

Definition available_product (t : tables) (id : Z) : option product :=
  match products t !! id with
  | Some p => if decide (p_status p = "available") then Some p else None
  | None => None
  end.

Definition owned_product (t : tables) (id user_id : Z) : bool :=
  match products t !! id with
  | Some p => bool_decide (p_user_id p = user_id)
  | None => false
  end.

(** The two JOINs of the history are inner joins: a purchase whose product or
    seller row is gone yields no row. The source sorts the listing by
    [purchase_date], a column that sqlite3 fills from the clock, to the
    second, and that is not kept here. The rows are given newest first, as
    the source gives them when no two purchases of the buyer fall in the same
    second; rows of one second come in an order that sqlite3 does not
    promise. No result below depends on the order of a listing. *)
Definition join_purchase (t : tables) (pu : purchase) : option history_row :=
  match products t !! pu_product_id pu, users t !! pu_seller_id pu with
  | Some pr, Some u => Some (pu, p_title pr, u)
  | _, _ => None
  end.

Definition purchase_history (t : tables) (buyer_id : Z) : list history_row :=
  omap (join_purchase t)
       (filter (λ pu, pu_buyer_id pu = buyer_id) (reverse (purchases t))).

Definition exec (s : stmt) (d : db) : db * result :=
  let t := tabs d in
  match s with
  | begin_transaction =>
      match txn d with
      | None => ({| tabs := t; txn := Some t |}, ran (purchases_seq t) 0)
      | Some _ => (d, failed "cannot start a transaction within a transaction")
      end
  | commit =>
      match txn d with
      | Some _ => ({| tabs := t; txn := None |}, ran (purchases_seq t) 0)
      | None => (d, failed "cannot commit - no transaction is active")
      end
  | rollback =>
      match txn d with
      | Some t0 => ({| tabs := t0; txn := None |}, ran (purchases_seq t0) 0)
      | None => (d, failed "cannot rollback - no transaction is active")
      end
  | select_available id => (d, got (available_product t id))
  | insert_purchase buyer_id product_id seller_id price =>
      let t' := add_purchase buyer_id product_id seller_id price t in
      ({| tabs := t'; txn := txn d |}, ran (purchases_seq t') 1)
  | update_sold id =>
      ({| tabs := set_products (alter mark_sold id) t; txn := txn d |},
       ran (purchases_seq t) (if products t !! id is Some _ then 1 else 0))
  | delete_cart user_id product_id =>
      ({| tabs := set_cart (λ c, c ∖ {[ (user_id, product_id) ]}) t; txn := txn d |},
       ran (purchases_seq t) (if decide ((user_id, product_id) ∈ cart t) then 1 else 0))
  | delete_product id user_id =>
      if owned_product t id user_id
      then ({| tabs := set_products (delete id) t; txn := txn d |},
            ran (purchases_seq t) 1)
      else (d, ran (purchases_seq t) 0)
  | select_purchases buyer_id => (d, all (purchase_history t buyer_id))
  end.

(** ** Requests and responses *)

(** A value of the request body. The ids of [product_ids] are integers, as
    the HTTP surface has them; JSON gives them exactly when they are safe
    integers ([safe_integer] below), and rounded beyond. *)
Inductive js_value :=
| js_undefined
| js_null
| js_bool (b : bool)
| js_number (n : Z)
| js_string (s : string)
| js_array (ids : list Z)
| js_object.

Definition truthy (v : js_value) : bool :=
  match v with
  | js_undefined | js_null => false
  | js_bool b => b
  | js_number n => negb (n =? 0)
  | js_string s => negb (String.eqb s "")
  | js_array _ | js_object => true
  end.

Definition isArray (v : js_value) : bool :=
  match v with js_array _ => true | _ => false end.

Definition array_items (v : js_value) : list Z :=
  match v with js_array ids => ids | _ => [] end.

(** [Number.isSafeInteger]: the integers a JS number holds exactly, and that a
    template literal prints digit by digit. *)
Definition safe_integer (n : Z) : Prop := Z.abs n < 9007199254740992.

(** A JSON response body. *)
Inductive json :=
| JNum (n : Z)
| JStr (s : string)
| JArr (l : list json)
| JObj (fields : list (string * json)).

Fixpoint field (k : string) (fields : list (string * json)) : option json :=
  match fields with
  | [] => None
  | (k', v) :: rest => if String.eqb k k' then Some v else field k rest
  end.

Definition member (k : string) (b : json) : option json :=
  match b with JObj fields => field k fields | _ => None end.

Record response := { status_code : Z; body : json }.

Definition product_json (id : Z) (p : product) : json :=
  JObj [("id", JNum id); ("title", JStr (p_title p)); ("price", JNum (p_price p));
        ("user_id", JNum (p_user_id p)); ("status", JStr (p_status p))].

Definition history_json (r : history_row) : json :=
  let '(pu, title, seller_name) := r in
  JObj [("id", JNum (pu_id pu)); ("buyer_id", JNum (pu_buyer_id pu));
        ("product_id", JNum (pu_product_id pu)); ("seller_id", JNum (pu_seller_id pu));
        ("price", JNum (pu_price pu)); ("title", JStr title);
        ("seller_name", JStr seller_name)].

(** ** The event loop

    All routes share the one connection [db]. [queue] holds the statements
    that were issued and have not run yet, the oldest first. When a
    statement has run, its callback runs to its end and may issue further
    statements, which join the end of the queue. Route handlers run between
    two turns of the loop, so the statements of several requests may
    alternate in the queue. The variables that the callbacks of a request
    close over ([completedPurchases], [errors]) and the responses sent on its
    [res] live in one cell per request.

    Which of the pending statements runs next is for sqlite3 to choose, within
    the bounds given in "Turns in any order" below. [step] is the turn in
    which the oldest one runs, and [drain] the run made of such turns alone:
    the run in which no statement overtakes another. *)

Inductive callback :=
| no_callback
| purchase_on_select (req : nat) (userId : Z) (length_ids : nat) (productId : Z)
| purchase_on_insert (req : nat) (userId : Z) (length_ids : nat) (productId : Z)
| buy_now_on_select (req : nat) (userId : Z) (product_id : Z) (payment_method : string)
| buy_now_on_insert (req : nat) (product_id : Z) (row : product) (payment_method : string)
| buy_now_on_update (req : nat) (lastID : Z) (product_id : Z) (row : product)
                    (payment_method : string)
| delete_on_run (req : nat)
| purchases_on_all (req : nat).

Record cell := {
  completedPurchases : nat;
  errors : list string;
  sent : list response;
}.

(** What becomes of a failed statement that was issued without a callback:
    sqlite3 emits an [error] event for it, which ends the process when nothing
    listens ([uncaught]) and is lost otherwise ([unheard]). The source
    registers no listener, so [uncaught] is what the program does: the worlds
    of the examples are of this kind. [unheard] is the program with a
    listener added; it is kept for comparison only, and a result that holds
    for it says so in its hypotheses. *)
Inductive error_event := uncaught | unheard.

Record world := {
  database : db;
  queue : list (stmt * callback);
  cells : list cell;
  on_error : error_event;
  crashed : bool;
}.

Definition set_database (d : db) (w : world) : world :=
  {| database := d; queue := queue w; cells := cells w;
     on_error := on_error w; crashed := crashed w |}.

Definition set_queue (q : list (stmt * callback)) (w : world) : world :=
  {| database := database w; queue := q; cells := cells w;
     on_error := on_error w; crashed := crashed w |}.

Definition set_cells (c : list cell) (w : world) : world :=
  {| database := database w; queue := queue w; cells := c;
     on_error := on_error w; crashed := crashed w |}.

Definition crash (w : world) : world :=
  {| database := database w; queue := []; cells := cells w;
     on_error := on_error w; crashed := true |}.

(** [db.run], [db.get] and [db.all] only differ in what the callback is
    handed; all three add the statement to those that are pending. *)
Definition db_run (s : stmt) (cb : callback) (w : world) : world :=
  set_queue (queue w ++ [(s, cb)]) w.

Definition new_cell : cell :=
  {| completedPurchases := 0; errors := []; sent := [] |}.

Definition push_error (e : string) (c : cell) : cell :=
  {| completedPurchases := completedPurchases c; errors := errors c ++ [e];
     sent := sent c |}.

Definition incr_completed (c : cell) : cell :=
  {| completedPurchases := S (completedPurchases c); errors := errors c;
     sent := sent c |}.

Definition send (r : response) (c : cell) : cell :=
  {| completedPurchases := completedPurchases c; errors := errors c;
     sent := sent c ++ [r] |}.

Definition on_cell (req : nat) (f : cell → cell) (w : world) : world :=
  set_cells (alter f req (cells w)) w.

Definition the_cell (req : nat) (w : world) : cell :=
  default new_cell (cells w !! req).

(** [res.status(code).json(body)] *)
Definition res_json (req : nat) (code : Z) (b : json) (w : world) : world :=
  on_cell req (send {| status_code := code; body := b |}) w.

Definition error_body (msg : string) : json := JObj [("error", JStr msg)].
Definition message_body (msg : string) : json := JObj [("message", JStr msg)].

(** ** Callbacks *)

(** POST /api/purchase, callback of the SELECT of one [productId]. *)
Definition purchase_select (req : nat) (userId : Z) (length_ids : nat) (productId : Z)
    (r : result) (w : world) : world :=
  match r with
  | got (Some product) =>
      if decide (p_user_id product = userId)
      then on_cell req (push_error ("Cannot purchase your own product " +:+ pretty productId)) w
      else db_run (insert_purchase userId productId (p_user_id product) (p_price product))
                  (purchase_on_insert req userId length_ids productId) w
  | _ =>
      on_cell req (push_error ("Product " +:+ pretty productId +:+ " not found or unavailable")) w
  end.

(** POST /api/purchase, callback of the INSERT of one purchase record. *)
Definition purchase_insert (req : nat) (userId : Z) (length_ids : nat) (productId : Z)
    (r : result) (w : world) : world :=
  let w :=
    match r with
    | failed _ =>
        on_cell req (push_error ("Failed to create purchase record for product "
                                 +:+ pretty productId)) w
    | _ =>
        let w := db_run (update_sold productId) no_callback w in
        let w := db_run (delete_cart userId productId) no_callback w in
        on_cell req incr_completed w
    end in
  let c := the_cell req w in
  if decide ((completedPurchases c + length (errors c))%nat = length_ids)
  then
    if decide (0 < length (errors c))%nat
    then
      let w := db_run rollback no_callback w in
      res_json req 400 (JObj [("error", JStr "Purchase failed");
                              ("details", JArr (JStr <$> errors c))]) w
    else
      let w := db_run commit no_callback w in
      res_json req 200 (JObj [("message", JStr "Purchase completed successfully");
                              ("purchased", JNum (Z.of_nat (completedPurchases c)))]) w
  else w.

(** POST /api/buy-now, callback of the SELECT. *)
Definition buy_now_select (req : nat) (userId : Z) (product_id : Z)
    (payment_method : string) (r : result) (w : world) : world :=
  match r with
  | failed _ => res_json req 500 (error_body "Database error") w
  | got (Some product) =>
      if decide (p_user_id product = userId)
      then res_json req 400 (error_body "Cannot purchase your own product") w
      else
        let w := db_run begin_transaction no_callback w in
        db_run (insert_purchase userId product_id (p_user_id product) (p_price product))
               (buy_now_on_insert req product_id product payment_method) w
  | _ => res_json req 404 (error_body "Product not found or unavailable") w
  end.

(** POST /api/buy-now, callback of the INSERT. *)
Definition buy_now_insert (req : nat) (product_id : Z) (product : product)
    (payment_method : string) (r : result) (w : world) : world :=
  match r with
  | failed _ =>
      let w := db_run rollback no_callback w in
      res_json req 500 (error_body "Purchase failed") w
  | ran lastID _ =>
      db_run (update_sold product_id)
             (buy_now_on_update req lastID product_id product payment_method) w
  | _ => w
  end.

(** POST /api/buy-now, callback of the UPDATE. *)
Definition buy_now_update (req : nat) (lastID : Z) (product_id : Z) (product : product)
    (payment_method : string) (r : result) (w : world) : world :=
  match r with
  | failed _ =>
      let w := db_run rollback no_callback w in
      res_json req 500 (error_body "Failed to update product status") w
  | _ =>
      let w := db_run commit no_callback w in
      res_json req 200
        (JObj [("message", JStr "Purchase successful! Your item has been booked.");
               ("purchase_id", JNum lastID);
               ("product", product_json product_id product);
               ("payment_method", JStr payment_method);
               ("total_amount", JNum (p_price product))]) w
  end.

(** DELETE /api/products/:id, callback of the DELETE. *)
Definition delete_run (req : nat) (r : result) (w : world) : world :=
  match r with
  | failed _ => res_json req 500 (error_body "Failed to delete product") w
  | ran _ changes =>
      if decide (changes = 0)
      then res_json req 404 (error_body "Product not found or unauthorized") w
      else res_json req 200 (message_body "Product deleted successfully") w
  | _ => w
  end.

(** GET /api/purchases, callback of the SELECT. *)
Definition purchases_all (req : nat) (r : result) (w : world) : world :=
  match r with
  | all rows => res_json req 200 (JArr (history_json <$> rows)) w
  | _ => res_json req 500 (error_body "Failed to fetch purchase history") w
  end.

Definition invoke (cb : callback) (r : result) (w : world) : world :=
  match cb with
  | no_callback =>
      match r with
      | failed _ => match on_error w with uncaught => crash w | unheard => w end
      | _ => w
      end
  | purchase_on_select req userId n productId => purchase_select req userId n productId r w
  | purchase_on_insert req userId n productId => purchase_insert req userId n productId r w
  | buy_now_on_select req userId product_id pm => buy_now_select req userId product_id pm r w
  | buy_now_on_insert req product_id row pm => buy_now_insert req product_id row pm r w
  | buy_now_on_update req lastID product_id row pm =>
      buy_now_update req lastID product_id row pm r w
  | delete_on_run req => delete_run req r w
  | purchases_on_all req => purchases_all req r w
  end.

(** The turn in which the oldest statement runs, then its callback. *)
Definition step (w : world) : world :=
  match queue w with
  | [] => w
  | (s, cb) :: q =>
      let '(d, r) := exec s (database w) in
      invoke cb r (set_queue q (set_database d w))
  end.

Fixpoint run (n : nat) (w : world) : world :=
  match n with
  | O => w
  | S k => run k (step w)
  end.

(** ** Turns in any order

    sqlite3 runs a statement that was issued inside a [db.serialize] block
    alone, when all that were issued before it are done. The statements
    issued outside such a block, from a callback or from a handler, are in
    parallel mode: once the serialized statements before them are done they
    run in no fixed order among themselves. Inside a [db.serialize] block are
    BEGIN and the SELECTs of a batch, and BEGIN and the INSERT of buy-now; the
    INSERTs of a batch, its UPDATEs and DELETEs, every COMMIT and ROLLBACK,
    the SELECT and the UPDATE of buy-now and the statements of the other
    routes are issued outside.

    Two things are left out. The callback of a statement is taken to run as
    soon as the statement has run. And a statement issued in parallel mode
    takes its place behind the serialized statements that wait at that
    moment, where sqlite3 starts it at once if no serialized statement is
    running; this only concerns a request whose statements overlap with the
    serialized statements of another. *)

Definition serialized (sc : stmt * callback) : bool :=
  match sc with
  | (begin_transaction, _) => true
  | (select_available _, purchase_on_select _ _ _ _) => true
  | (insert_purchase _ _ _ _, buy_now_on_insert _ _ _ _) => true
  | _ => false
  end.

(** The statement at index [i] of the queue may run next: it is the oldest,
    or neither it nor any statement before it is serialized. *)
Definition ready (q : list (stmt * callback)) (i : nat) : bool :=
  match i with
  | O => true
  | S _ => forallb (λ sc, negb (serialized sc)) (take (S i) q)
  end.

(** The turn in which the statement at index [i] runs, if it may. *)
Definition step_at (i : nat) (w : world) : option world :=
  match queue w !! i with
  | Some (s, cb) =>
      if ready (queue w) i
      then let '(d, r) := exec s (database w) in
           Some (invoke cb r (set_queue (delete i (queue w)) (set_database d w)))
      else None
  | None => None
  end.

(** A run is given by the index chosen at each turn. *)
Fixpoint run_along (sched : list nat) (w : world) : option world :=
  match sched with
  | [] => Some w
  | i :: sched => w' ← step_at i w; run_along sched w'
  end.

(** The run [sched] is one that sqlite3 may take from [w], and it leaves
    nothing pending. *)
Definition completes (sched : list nat) (w w' : world) : Prop :=
  run_along sched w = Some w' ∧ queue w' = [].

(** Only the oldest statement may run next: it is the only one pending, or
    it is serialized, or the one behind it is. *)
Definition forced (w : world) : Prop :=
  match queue w with
  | [] => False
  | [_] => True
  | sc :: sc' :: _ => serialized sc = true ∨ serialized sc' = true
  end.

(** ** Routes

    A route handler runs to its end before the loop takes its next turn; it
    opens the request's cell, whose index is the number of requests seen so
    far, and either answers at once or issues its first statements. *)

Definition accept (w : world) : world := set_cells (cells w ++ [new_cell]) w.

(** POST /api/purchase *)
Definition post_purchase (userId : Z) (product_ids : js_value) (w : world) : world :=
  let req := length (cells w) in
  let w := accept w in
  if negb (truthy product_ids) || negb (isArray product_ids)
     || bool_decide (length (array_items product_ids) = 0%nat)
  then res_json req 400 (error_body "Product IDs array is required") w
  else
    let w := db_run begin_transaction no_callback w in
    foldl (λ w productId,
             db_run (select_available productId)
                    (purchase_on_select req userId (length (array_items product_ids)) productId) w)
          w (array_items product_ids).

(** POST /api/buy-now; an absent field of the body is [None]. *)
Definition post_buy_now (userId : Z) (product_id : option Z) (payment_method : option string)
    (w : world) : world :=
  let req := length (cells w) in
  let w := accept w in
  match product_id with
  | None | Some 0 => res_json req 400 (error_body "Product ID is required") w
  | Some id =>
      match payment_method with
      | None | Some "" => res_json req 400 (error_body "Payment method is required") w
      | Some pm =>
          db_run (select_available id) (buy_now_on_select req userId id pm) w
      end
  end.

(** DELETE /api/products/:id *)
Definition delete_products (userId : Z) (productId : Z) (w : world) : world :=
  let req := length (cells w) in
  let w := accept w in
  db_run (delete_product productId userId) (delete_on_run req) w.

(** GET /api/purchases *)
Definition get_purchases (userId : Z) (w : world) : world :=
  let req := length (cells w) in
  let w := accept w in
  db_run (select_purchases userId) (purchases_on_all req) w.

(** The loop runs dry: every callback issues statements whose own callbacks
    are nearer to the end of their route, so a bound on the turns still to
    come can be read off the queue. *)
Definition weight (cb : callback) : nat :=
  match cb with
  | purchase_on_select _ _ _ _ => 5
  | purchase_on_insert _ _ _ _ => 4
  | buy_now_on_select _ _ _ _ => 5
  | buy_now_on_insert _ _ _ _ => 3
  | buy_now_on_update _ _ _ _ _ => 2
  | _ => 1
  end.

Definition turns (q : list (stmt * callback)) : nat :=
  sum_list_with (λ sc, weight sc.2) q.

(** The loop run dry in the order of issue: the world in which a request has
    completed when no statement has overtaken another. *)
Definition drain (w : world) : world := run (turns (queue w)) w.

(** ** The purchase route, turn by turn

    What the callbacks of one POST /api/purchase make of its ids, read
    against the tables [t] the SELECTs see. *)

(** The product for which the SELECT callback of [productId] issues an INSERT. *)
Definition accepted (t : tables) (userId productId : Z) : option (Z * product) :=
  match available_product t productId with
  | Some p => if decide (p_user_id p = userId) then None else Some (productId, p)
  | None => None
  end.

(** The entry the SELECT callback of [productId] pushes on [errors].
    [pretty] prints the digits of the id, as the template literal does for a
    safe integer. *)
Definition refused (t : tables) (userId productId : Z) : option string :=
  match available_product t productId with
  | Some p =>
      if decide (p_user_id p = userId)
      then Some ("Cannot purchase your own product " +:+ pretty productId)
      else None
  | None => Some ("Product " +:+ pretty productId +:+ " not found or unavailable")
  end.

Definition selects (req : nat) (userId : Z) (n : nat) (ids : list Z)
    : list (stmt * callback) :=
  (λ id, (select_available id, purchase_on_select req userId n id)) <$> ids.

Definition inserts (req : nat) (userId : Z) (n : nat) (oks : list (Z * product))
    : list (stmt * callback) :=
  (λ ok, (insert_purchase userId ok.1 (p_user_id ok.2) (p_price ok.2),
          purchase_on_insert req userId n ok.1)) <$> oks.

(** The UPDATE and the DELETE that the INSERT callbacks leave in the queue. *)
Definition settlements (userId : Z) (oks : list (Z * product)) : list stmt :=
  oks ≫= λ ok, [update_sold ok.1; delete_cart userId ok.1].

Definition silent (ss : list stmt) : list (stmt * callback) :=
  (λ s, (s, no_callback)) <$> ss.

Definition exec_all (ss : list stmt) (d : db) : db :=
  foldl (λ d s, (exec s d).1) d ss.

Definition record_purchases (userId : Z) (oks : list (Z * product)) (d : db) : db :=
  exec_all ((λ ok, insert_purchase userId ok.1 (p_user_id ok.2) (p_price ok.2)) <$> oks) d.

Definition push_errors (es : list string) (c : cell) : cell :=
  {| completedPurchases := completedPurchases c; errors := errors c ++ es;
     sent := sent c |}.

Definition add_completed (k : nat) (c : cell) : cell :=
  {| completedPurchases := (k + completedPurchases c)%nat; errors := errors c;
     sent := sent c |}.

(** ** Answers *)

Definition failure (code : Z) (msg : string) : response :=
  {| status_code := code; body := error_body msg |}.

Definition purchase_failed (errors : list string) : response :=
  {| status_code := 400;
     body := JObj [("error", JStr "Purchase failed");
                   ("details", JArr (JStr <$> errors))] |}.

Definition purchase_completed (purchased : nat) : response :=
  {| status_code := 200;
     body := JObj [("message", JStr "Purchase completed successfully");
                   ("purchased", JNum (Z.of_nat purchased))] |}.

Definition buy_now_sent (lastID product_id : Z) (p : product) (pm : string) : response :=
  {| status_code := 200;
     body := JObj [("message", JStr "Purchase successful! Your item has been booked.");
                   ("purchase_id", JNum lastID);
                   ("product", product_json product_id p);
                   ("payment_method", JStr pm);
                   ("total_amount", JNum (p_price p))] |}.

(** The world after a handler has answered a request by itself. *)
Definition answered (r : response) (w : world) : world :=
  {| database := database w; queue := queue w;
     cells := cells w ++ [send r new_cell];
     on_error := on_error w; crashed := crashed w |}.

(** ** Ends of a batch *)

(** The INSERT callback that sees the count complete ends the transaction and
    answers. *)
Definition verdict (c : cell) : stmt * response :=
  if decide (0 < length (errors c))%nat
  then (rollback, purchase_failed (errors c))
  else (commit, purchase_completed (completedPurchases c)).

Definition never_fails (s : stmt) : Prop :=
  match s with
  | update_sold _ | delete_cart _ _ | insert_purchase _ _ _ _ => True
  | _ => False
  end.

(** The state in which the SELECTs of a batch run: inside a transaction, the
    one BEGIN opened or the one that was left open before. *)
Definition begun (d : db) : db := (exec begin_transaction d).1.

(** ** A batch between its SELECTs and its end

    Once the SELECTs of a batch have run, all that is pending is in parallel
    mode. The tables are then the tables [t] of the start (or of the
    ROLLBACK) with the rows of the INSERTs that have run, [recorded], in the
    order in which they ran, and the effects of the UPDATEs and DELETEs that
    have run, [updated] and [deleted]. *)

(** The row of the INSERT for [ok] that runs when [k] INSERTs have run. *)
Definition purchase_row (userId seq : Z) (k : nat) (ok : Z * product) : purchase :=
  {| pu_id := seq + Z.of_nat k + 1; pu_buyer_id := userId; pu_product_id := ok.1;
     pu_seller_id := p_user_id ok.2; pu_price := p_price ok.2 |}.

Definition purchase_rows (userId seq : Z) (recorded : list (Z * product)) : list purchase :=
  imap (purchase_row userId seq) recorded.

Definition settled (t : tables) (userId : Z) (recorded : list (Z * product))
    (updated deleted : list Z) : tables :=
  {| users := users t;
     products := foldr (alter mark_sold) (products t) updated;
     cart := foldr (λ id c, c ∖ {[ (userId, id) ]}) (cart t) deleted;
     purchases := purchases t ++ purchase_rows userId (purchases_seq t) recorded;
     purchases_seq := purchases_seq t + Z.of_nat (length recorded) |}.

(** The cell of the batch when its last INSERT callback looks at the count. *)
Definition final_cell (oks : list (Z * product)) (errs : list string) : cell :=
  {| completedPurchases := length oks; errors := errs; sent := [] |}.

(** The worlds a batch goes through after its SELECTs: [oks] passed and
    [errs] were collected; the INSERTs of [todo] are pending, with the UPDATEs
    of [pu] and the DELETEs of [pd], and COMMIT or ROLLBACK once the last
    INSERT callback has issued it and until it runs ([open]). *)
Inductive settling (t : tables) (userId : Z) (oks : list (Z * product)) (errs : list string)
    (cs0 : list cell) (e : error_event) (cr : bool) (w : world) : Prop :=
| settling_intro todo recorded pu pd updated deleted (open : bool) :
    database w = {| tabs := settled t userId recorded updated deleted;
                    txn := if open then Some t else None |} →
    queue w ≡ₚ inserts (length cs0) userId (length oks + length errs) todo
               ++ silent (update_sold <$> pu) ++ silent (delete_cart userId <$> pd)
               ++ (if open && bool_decide (todo = [])
                   then silent [(verdict (final_cell oks errs)).1] else []) →
    cells w = cs0 ++ [ {| completedPurchases := length oks - length todo;
                          errors := errs;
                          sent := if bool_decide (todo = [])
                                  then [(verdict (final_cell oks errs)).2] else [] |} ] →
    on_error w = e → crashed w = cr →
    (open = false → todo = []) →
    (open = true ∨ errs = [] → recorded ++ todo ≡ₚ oks) →
    (open = false → errs ≠ [] → recorded = []) →
    Forall (λ id, id ∈ oks.*1) (updated ++ pu) →
    Forall (λ id, id ∈ oks.*1) (deleted ++ pd) →
    (errs = [] → ∀ id, id ∈ oks.*1 → id ∈ todo.*1 ∨ id ∈ pu ∨ id ∈ updated) →
    (errs = [] → ∀ id, id ∈ oks.*1 → id ∈ todo.*1 ∨ id ∈ pd ∨ id ∈ deleted) →
    settling t userId oks errs cs0 e cr w.

(** ** Properties of the tables *)

(** Some purchase row refers to the product. *)
Definition purchased (t : tables) (id : Z) : Prop :=
  ∃ pu, pu ∈ purchases t ∧ pu_product_id pu = id.

(** What a purchase asks of a product: listed, available, and not the buyer's. *)
Definition purchasable (t : tables) (userId id : Z) : Prop :=
  ∃ p, products t !! id = Some p ∧ p_status p = "available" ∧ p_user_id p ≠ userId.

(** A product is sold exactly when a purchase row refers to it; the same of
    the tables a ROLLBACK would restore. *)
Definition consistent (t : tables) : Prop :=
  ∀ id p, products t !! id = Some p → (p_status p = "sold" ↔ purchased t id).

Definition sound (d : db) : Prop :=
  consistent (tabs d) ∧ ∀ t0, txn d = Some t0 → consistent t0.

(** ** A small shop

    Alice (1) sells a lamp (10, available), a desk (11, sold to Carol) and
    Bob (2) sells a bike (12, available); Bob and Carol (3) both have the lamp
    in their carts. *)
Definition lamp : product :=
  {| p_title := "lamp"; p_price := 1000; p_user_id := 1; p_status := "available" |}.
Definition desk : product :=
  {| p_title := "desk"; p_price := 2500; p_user_id := 1; p_status := "sold" |}.
Definition bike : product :=
  {| p_title := "bike"; p_price := 9900; p_user_id := 2; p_status := "available" |}.

Definition shop : tables :=
  {| users := {[ 1 := "alice"; 2 := "bob"; 3 := "carol" ]};
     products := {[ 10 := lamp; 11 := desk; 12 := bike ]};
     cart := {[ (2, 10); (3, 10) ]};
     purchases := [ {| pu_id := 1; pu_buyer_id := 3; pu_product_id := 11;
                       pu_seller_id := 1; pu_price := 2500 |} ];
     purchases_seq := 1 |}.

Definition open_shop (e : error_event) : world :=
  {| database := {| tabs := shop; txn := None |}; queue := []; cells := [];
     on_error := e; crashed := false |}.

(** The status of a product and the purchase rows that refer to it. *)
Definition status_of (id : Z) (w : world) : option string :=
  p_status <$> products (tabs (database w)) !! id.

Definition purchases_of (id : Z) (w : world) : list purchase :=
  filter (λ pu, pu_product_id pu = id) (purchases (tabs (database w))).

(** ** Routes of one statement after the other

    The cart, favourites, view and statistics routes issue each statement
    inside the callback of the one before, so a request that runs alone
    executes them in the order written; they are given here as functions of
    the tables they are run on, returning the tables they leave and the
    response they send. None of their statements can fail on these tables, so
    their 500 branches are not reached. *)

Definition ok (b : json) : response := {| status_code := 200; body := b |}.

(** POST /api/cart; an absent [product_id] is [None]. The INSERT OR REPLACE
    meets UNIQUE(user_id, product_id): an entry already there is replaced. *)
Definition post_cart (userId : Z) (product_id : option Z) (t : tables)
    : tables * response :=
  match product_id with
  | None | Some 0 => (t, failure 400 "Product ID is required")
  | Some id =>
      match available_product t id with
      | None => (t, failure 404 "Product not found or unavailable")
      | Some product =>
          if decide (p_user_id product = userId)
          then (t, failure 400 "Cannot add your own product to cart")
          else (set_cart (λ c, {[ (userId, id) ]} ∪ c) t,
                ok (message_body "Product added to cart"))
      end
  end.

(** DELETE /api/cart/:productId *)
Definition delete_cart_entry (userId productId : Z) (t : tables) : tables * response :=
  (set_cart (λ c, c ∖ {[ (userId, productId) ]}) t,
   ok (message_body "Product removed from cart")).

(** A row of the cart listing: the entry with the title, price and status of
    its product and the name of the seller ([quantity] is always 1). *)
Record cart_item := {
  ci_user_id : Z;
  ci_product_id : Z;
  ci_title : string;
  ci_price : Z;
  ci_status : string;
  ci_seller_name : string;
}.

(** FROM cart c JOIN products p ON c.product_id = p.id JOIN users u ON
    p.user_id = u.id WHERE .. p.status = 'available': both joins are inner. *)
Definition cart_row (t : tables) (entry : Z * Z) : option cart_item :=
  match products t !! entry.2 with
  | Some p =>
      match users t !! p_user_id p with
      | Some seller_name =>
          if decide (p_status p = "available")
          then Some {| ci_user_id := entry.1; ci_product_id := entry.2;
                       ci_title := p_title p; ci_price := p_price p;
                       ci_status := p_status p; ci_seller_name := seller_name |}
          else None
      | None => None
      end
  | None => None
  end.

(** The rows of GET /api/cart. The table keeps no [added_at], so the order
    of the listing is that of the set and carries no meaning. *)
Definition select_cart (t : tables) (user_id : Z) : list cart_item :=
  omap (cart_row t) (filter (λ entry, entry.1 = user_id) (elements (cart t))).

(** What the cart page sends when the user checks out: the product ids of the
    listing it was given ([cartItems.map(item => item.product_id)]). *)
Definition handlePurchase_ids (cartItems : list cart_item) : list Z :=
  ci_product_id <$> cartItems.

(** ** Favourites, views and statistics

    The tables [favorites] (UNIQUE(user_id, product_id)) and [product_views]
    (product and viewer of each view, the viewer being NULL for a visitor
    without token). *)
Record shelves := {
  favorites : gset (Z * Z);
  product_views : list (Z * option Z);
}.

Definition set_favorites (f : gset (Z * Z) → gset (Z * Z)) (s : shelves) : shelves :=
  {| favorites := f (favorites s); product_views := product_views s |}.

(** POST /api/favorites. The INSERT OR IGNORE changes no row when the entry
    is already there, and the route then answers 400. *)
Definition post_favorites (userId : Z) (product_id : option Z) (t : tables) (s : shelves)
    : shelves * response :=
  match product_id with
  | None | Some 0 => (s, failure 400 "Product ID is required")
  | Some id =>
      match available_product t id with
      | None => (s, failure 404 "Product not found or unavailable")
      | Some product =>
          if decide (p_user_id product = userId)
          then (s, failure 400 "Cannot add your own product to favorites")
          else
            let changes := if decide ((userId, id) ∈ favorites s) then 0 else 1 in
            let s' := set_favorites (λ f, {[ (userId, id) ]} ∪ f) s in
            if decide (changes = 0)
            then (s', failure 400 "Product already in favorites")
            else (s', ok (message_body "Product added to favorites"))
      end
  end.

(** DELETE /api/favorites/:productId *)
Definition delete_favorites (userId productId : Z) (s : shelves) : shelves * response :=
  (set_favorites (λ f, f ∖ {[ (userId, productId) ]}) s,
   ok (message_body "Product removed from favorites")).

(** A row of the favourites listing, with the columns that the tables here
    keep; the seller comes by a LEFT JOIN and is NULL when the seller's row
    is gone. *)
Record favorite_item := {
  fi_user_id : Z;
  fi_product_id : Z;
  fi_title : string;
  fi_price : Z;
  fi_status : string;
  fi_seller_name : option string;
}.

Definition favorite_row (t : tables) (entry : Z * Z) : option favorite_item :=
  match products t !! entry.2 with
  | Some p =>
      if decide (p_status p = "available")
      then Some {| fi_user_id := entry.1; fi_product_id := entry.2;
                   fi_title := p_title p; fi_price := p_price p;
                   fi_status := p_status p;
                   fi_seller_name := users t !! p_user_id p |}
      else None
  | None => None
  end.

(** The rows of GET /api/favorites, in the order of the set. *)
Definition select_favorites (t : tables) (s : shelves) (user_id : Z) : list favorite_item :=
  omap (favorite_row t) (filter (λ entry, entry.1 = user_id) (elements (favorites s))).

(** POST /api/products/:id/view. Nothing is asked of the product: the view
    is inserted whether or not the product exists, and the answer is the same
    whatever the INSERT did. [viewer] is what the callback given to
    [jwt.verify] returns: the [userId] of a valid token, NULL otherwise and
    also when there is no Authorization header. *)
Definition post_view (productId : Z) (viewer : option Z) (s : shelves)
    : shelves * response :=
  ({| favorites := favorites s;
      product_views := product_views s ++ [(productId, viewer)] |},
   ok (message_body "View tracked")).

(** SELECT COUNT( * ) FROM product_views WHERE product_id = ? *)
Definition view_count (s : shelves) (productId : Z) : nat :=
  length (filter (λ v, v.1 = productId) (product_views s)).

(** SELECT COUNT( * ) FROM favorites WHERE product_id = ? *)
Definition favorites_count (s : shelves) (productId : Z) : nat :=
  length (filter (λ f, f.2 = productId) (elements (favorites s))).

(** GET /api/products/:id/stats, for the owner of the product only. Of the
    four fields of the answer, [created_at] is a column that [product] does
    not keep and is left out. *)
Definition get_stats (userId productId : Z) (t : tables) (s : shelves) : response :=
  match products t !! productId with
  | Some product =>
      if decide (p_user_id product = userId)
      then ok (JObj [("view_count", JNum (Z.of_nat (view_count s productId)));
                     ("favorites_count", JNum (Z.of_nat (favorites_count s productId)));
                     ("status", JStr (p_status product))])
      else failure 404 "Product not found or unauthorized"
  | None => failure 404 "Product not found or unauthorized"
  end.

(** ** The authentication middleware

    [jwt.verify] with the server's secret is a parameter: it gives the
    [userId] of the token's payload, or fails. *)

(** [s.split(sep)] for a separator of one character. *)
Fixpoint split (sep : Ascii.ascii) (s : string) : list string :=
  match s with
  | EmptyString => [EmptyString]
  | String c rest =>
      if Ascii.eqb c sep then EmptyString :: split sep rest
      else match split sep rest with
           | word :: words => String c word :: words
           | [] => [String c EmptyString]
           end
  end.

(** The character of [' ']. *)
Definition space : Ascii.ascii := Ascii.ascii_of_nat 32.

(** A string without [' ']. *)
Fixpoint spaceless (s : string) : bool :=
  match s with
  | EmptyString => true
  | String c rest => negb (Ascii.eqb c space) && spaceless rest
  end.

(** [authenticateToken]: the response it sends, or the user with which it
    calls [next()]. *)
Definition authenticateToken (verify : string → option Z) (authorization : option string)
    : response + Z :=
  let token :=
    match authorization with
    | None | Some EmptyString => None
    | Some authHeader => split space authHeader !! 1%nat
    end in
  match token with
  | None | Some EmptyString => inl (failure 401 "Access token required")
  | Some token =>
      match verify token with
      | None => inl (failure 403 "Invalid token")
      | Some user => inr user
      end
  end.

(** A route behind the middleware: the handler runs with [req.user.userId]
    when the middleware calls [next()], and not at all otherwise. *)
Definition authenticated (verify : string → option Z) (authorization : option string)
    (handler : Z → world → world) (w : world) : world :=
  match authenticateToken verify authorization with
  | inl r => answered r w
  | inr userId => handler userId w
  end.

(** ** Validation of e-mail addresses

    Strings are sequences of UTF-16 code units, as the regular expression
    sees them. *)

Inductive regex :=
| re_none
| re_empty
| re_class (p : N → bool)
| re_seq (r1 r2 : regex)
| re_alt (r1 r2 : regex)
| re_star (r : regex).

Definition re_plus (r : regex) : regex := re_seq r (re_star r).

Fixpoint nullable (r : regex) : bool :=
  match r with
  | re_none => false
  | re_empty => true
  | re_class _ => false
  | re_seq r1 r2 => nullable r1 && nullable r2
  | re_alt r1 r2 => nullable r1 || nullable r2
  | re_star _ => true
  end.

Fixpoint derive (c : N) (r : regex) : regex :=
  match r with
  | re_none | re_empty => re_none
  | re_class p => if p c then re_empty else re_none
  | re_seq r1 r2 =>
      if nullable r1
      then re_alt (re_seq (derive c r1) r2) (derive c r2)
      else re_seq (derive c r1) r2
  | re_alt r1 r2 => re_alt (derive c r1) (derive c r2)
  | re_star r => re_seq (derive c r) (re_star r)
  end.

(** [/^r$/.test(s)] *)
Fixpoint regex_test (r : regex) (s : list N) : bool :=
  match s with
  | [] => nullable r
  | c :: s' => regex_test (derive c r) s'
  end.

(** The class [\s]: white space and line terminators. *)
Definition js_space (c : N) : bool :=
  bool_decide (c ∈ [9; 10; 11; 12; 13; 32; 160; 5760; 8232; 8233; 8239; 8287; 12288;
                    65279]%N)
  || ((8192 <=? c) && (c <=? 8202))%N.

Definition at_sign : N := 64.
Definition full_stop : N := 46.

(** [[^\s@]] *)
Definition not_space_or_at (c : N) : bool := negb (js_space c || (c =? at_sign)%N).

(** [/^[^\s@]+@[^\s@]+\.[^\s@]+$/] *)
Definition email_re : regex :=
  re_seq (re_plus (re_class not_space_or_at))
    (re_seq (re_class (λ c, (c =? at_sign)%N))
       (re_seq (re_plus (re_class not_space_or_at))
          (re_seq (re_class (λ c, (c =? full_stop)%N))
             (re_plus (re_class not_space_or_at))))).

Definition validateEmail (email : list N) : bool := regex_test email_re email.

(** The words a regular expression matches. *)
Inductive matches : regex → list N → Prop :=
| matches_empty : matches re_empty []
| matches_class p c : p c = true → matches (re_class p) [c]
| matches_seq r1 r2 s1 s2 :
    matches r1 s1 → matches r2 s2 → matches (re_seq r1 r2) (s1 ++ s2)
| matches_alt_l r1 r2 s : matches r1 s → matches (re_alt r1 r2) s
| matches_alt_r r1 r2 s : matches r2 s → matches (re_alt r1 r2) s
| matches_star_nil r : matches (re_star r) []
| matches_star_cons r s1 s2 :
    matches r s1 → matches (re_star r) s2 → matches (re_star r) (s1 ++ s2).

(** The code units of a string of ASCII characters. *)
Definition units (s : string) : list N :=
  Ascii.N_of_ascii <$> String.list_ascii_of_string s.

(** ** Tactics *)

(** Unfolds the operations of the loop on a world given by its fields. *)
Ltac reduce :=
  repeat progress
    (unfold res_json, on_cell, db_run, set_queue, set_database, set_cells;
     cbn [exec invoke queue database cells on_error crashed app fst snd]).

(** Takes one turn of [run]. *)
Ltac turn :=
  lazymatch goal with
  | |- context [run (S ?n) ?w] => change (run (S n) w) with (run n (step w))
  end;
  unfold step; reduce; change (run 0 ?w) with w.

(** ** Generalities on the loop *)

Lemma run_add a b w : run (a + b) w = run b (run a w).
Proof. revert w. induction a as [|a IH]; intros w; simpl; [done | apply IH]. Qed.

Lemma step_quiet w : queue w = [] → step w = w.
Proof. unfold step. by intros ->. Qed.

Lemma run_quiet n w : queue w = [] → run n w = w.
Proof.
  induction n as [|n IH]; intros Hq; simpl; [done|].
  rewrite step_quiet by done. by apply IH.
Qed.

Lemma turns_app q1 q2 : turns (q1 ++ q2) = (turns q1 + turns q2)%nat.
Proof. apply sum_list_with_app. Qed.

Lemma step_turns w :
  queue w ≠ [] → (turns (queue (step w)) < turns (queue w))%nat.
Proof.
  unfold step. destruct (queue w) as [|[s cb] q] eqn:Hq; [done|]. intros _.
  destruct (exec s (database w)) as [d r].
  change (turns ((s, cb) :: q)) with (weight cb + turns q)%nat.
  destruct cb; simpl.
  - destruct r; simpl; try lia. destruct (on_error w); simpl; unfold turns; simpl; lia.
  - unfold purchase_select. destruct r as [|[row|]| |]; simpl; try lia.
    destruct (decide _); simpl; [lia|]. rewrite turns_app. unfold turns at 2. simpl. lia.
  - unfold purchase_insert.
    destruct r; simpl; repeat (destruct (decide _); simpl);
      rewrite ?app_nil_r, ?turns_app; unfold turns; simpl; lia.
  - unfold buy_now_select. destruct r as [|[row|]| |]; simpl; try lia.
    destruct (decide _); simpl; [lia|].
    rewrite !turns_app. unfold turns; simpl; lia.
  - unfold buy_now_insert. destruct r; simpl; rewrite ?turns_app; unfold turns; simpl; lia.
  - unfold buy_now_update. destruct r; simpl; rewrite ?turns_app; unfold turns; simpl; lia.
  - unfold delete_run. destruct r; simpl; try lia. destruct (decide _); simpl; lia.
  - unfold purchases_all. destruct r; simpl; lia.
Qed.

Lemma run_dry n w : (turns (queue w) ≤ n)%nat → queue (run n w) = [].
Proof.
  revert w. induction n as [|n IH]; intros w Hn; simpl.
  - destruct (queue w) as [|[s cb] q]; [done|].
    exfalso. revert Hn. unfold turns. simpl. destruct cb; simpl; lia.
  - destruct (decide (queue w = [])) as [Hq|Hq].
    + rewrite step_quiet by done. by rewrite run_quiet.
    + apply IH. pose proof (step_turns w Hq). lia.
Qed.

Lemma drain_quiet w : queue (drain w) = [].
Proof. by apply run_dry. Qed.

(** Whatever number of turns empties the queue, the world it leaves is the
    drained one. *)
Lemma drain_run k w : queue (run k w) = [] → drain w = run k w.
Proof.
  intros Hk. unfold drain. set (n := turns (queue w)).
  destruct (decide (k ≤ n)%nat) as [Hle|Hle].
  - replace n with (k + (n - k))%nat by lia. rewrite run_add. by apply run_quiet.
  - replace k with (n + (k - n))%nat by lia. rewrite run_add.
    symmetry. apply run_quiet. by apply run_dry.
Qed.

Lemma drain_to k w w' : run k w = w' → queue w' = [] → drain w = w'.
Proof. intros <- Hq. by apply drain_run. Qed.

Lemma drain_idle w : queue w = [] → drain w = w.
Proof. intros Hq. unfold drain. by apply run_quiet. Qed.

(** ** Turns in any order *)

Lemma step_at_head w : queue w ≠ [] → step_at 0 w = Some (step w).
Proof.
  unfold step_at, step. destruct (queue w) as [|[s cb] q]; [done|]. intros _. cbn.
  by destruct (exec s (database w)).
Qed.

(** The run in the order of issue is one of the runs. *)
Lemma run_in_order n w :
  (turns (queue w) ≤ n)%nat → ∃ k, run_along (replicate k 0%nat) w = Some (run n w).
Proof.
  revert w. induction n as [|n IH]; intros w Hn.
  - exists 0%nat. done.
  - destruct (decide (queue w = [])) as [Hq|Hq].
    + exists 0%nat. cbn [replicate run_along]. f_equal.
      change (run (S n) w) with (run n (step w)).
      rewrite step_quiet by done. by rewrite run_quiet.
    + destruct (IH (step w)) as [k Hk]; [pose proof (step_turns w Hq); lia|].
      exists (S k). cbn [replicate run_along]. rewrite step_at_head by done. cbn. exact Hk.
Qed.

Lemma drain_completes w : ∃ sched, completes sched w (drain w).
Proof.
  destruct (run_in_order (turns (queue w)) w) as [k Hk]; [done|].
  exists (replicate k 0%nat). split; [done | apply drain_quiet].
Qed.

Lemma forced_step i w w' : forced w → step_at i w = Some w' → i = 0%nat ∧ w' = step w.
Proof.
  unfold forced. destruct (queue w) as [|sc q] eqn:Hq; [done|]. intros Hf.
  destruct i as [|i].
  - rewrite step_at_head by by rewrite Hq. by intros [= <-].
  - unfold step_at. rewrite Hq. destruct q as [|sc' q]; [done|].
    destruct ((sc :: sc' :: q) !! S i) as [[s cb]|]; [|done].
    assert (ready (sc :: sc' :: q) (S i) = false) as ->; [|done].
    unfold ready. cbn [take forallb].
    destruct Hf as [-> | ->]; cbn; [done | by rewrite andb_false_r].
Qed.

(** While the oldest statement is the only one that may run, every run
    takes the turns of [run]. *)
Lemma run_along_forced k : ∀ sched w w',
  (∀ j, (j < k)%nat → forced (run j w)) →
  completes sched w w' →
  ∃ sched', sched = replicate k 0%nat ++ sched' ∧ completes sched' (run k w) w'.
Proof.
  induction k as [|k IH]; intros sched w w' Hf [Hrun Hq].
  - exists sched. done.
  - pose proof (Hf 0%nat ltac:(lia)) as Hf0. cbn in Hf0.
    destruct sched as [|i sched].
    + cbn in Hrun. injection Hrun as <-. unfold forced in Hf0. by rewrite Hq in Hf0.
    + cbn in Hrun. destruct (step_at i w) as [w1|] eqn:Hi; [|done]. cbn in Hrun.
      destruct (forced_step _ _ _ Hf0 Hi) as [-> ->].
      destruct (IH sched (step w) w') as (sched' & -> & Hc).
      * intros j Hj. apply (Hf (S j)). lia.
      * done.
      * exists sched'. done.
Qed.

Lemma step_at_idle i w : queue w = [] → step_at i w = None.
Proof. unfold step_at. by intros ->. Qed.

Lemma completes_idle sched w w' : queue w = [] → completes sched w w' → w' = w.
Proof.
  intros Hq [Hrun _]. destruct sched as [|i sched]; cbn in Hrun; [congruence|].
  by rewrite step_at_idle in Hrun.
Qed.

(** A request whose turns are all forced has one run, the one [drain] takes. *)
Lemma one_way K w sched w' :
  (∀ j, (j < K)%nat → forced (run j w)) → queue (run K w) = [] →
  completes sched w w' → w' = drain w.
Proof.
  intros Hf Hq Hc. rewrite (drain_run K) by done.
  destruct (run_along_forced _ _ _ _ Hf Hc) as (sched' & -> & Hc').
  by apply (completes_idle sched').
Qed.

(** ** The purchase route: the SELECT turns *)

Lemma selects_run req userId n ids : ∀ d q cs e cr,
  run (length ids)
      {| database := d; queue := selects req userId n ids ++ q; cells := cs;
         on_error := e; crashed := cr |}
  = {| database := d;
       queue := q ++ inserts req userId n (omap (accepted (tabs d) userId) ids);
       cells := alter (push_errors (omap (refused (tabs d) userId) ids)) req cs;
       on_error := e; crashed := cr |}.
Proof.
  induction ids as [|id ids IH]; intros d q cs e cr.
  - simpl. rewrite app_nil_r. f_equal.
    symmetry. apply list_alter_id.
    intros [k es r]. unfold push_errors. simpl. by rewrite app_nil_r.
  - cbn [length run]. unfold step. cbn [queue selects fmap list_fmap app].
    cbn [exec database invoke]. unfold purchase_select, accepted, refused.
    cbn [omap list_omap]. fold (omap (accepted (tabs d) userId) ids).
    fold (omap (refused (tabs d) userId) ids).
    unfold accepted, refused.
    destruct (available_product (tabs d) id) as [p|] eqn:Hp.
    + destruct (decide (p_user_id p = userId)) as [Hown|Hown].
      * unfold on_cell, set_cells, set_queue, set_database. cbn.
        fold (selects req userId n ids). rewrite IH. f_equal.
        rewrite list_alter_alter_eq. apply list_alter_ext; [|done].
        intros [k es r] _. unfold push_errors, push_error. cbn.
        by rewrite <- app_assoc.
      * unfold db_run, set_cells, set_queue, set_database. cbn.
        fold (selects req userId n ids). rewrite <- app_assoc. rewrite IH.
        f_equal. by rewrite <- app_assoc.
    + unfold on_cell, set_cells, set_queue, set_database. cbn.
      fold (selects req userId n ids). rewrite IH. f_equal.
      rewrite list_alter_alter_eq. apply list_alter_ext; [|done].
      intros [k es r] _. unfold push_errors, push_error. cbn.
      by rewrite <- app_assoc.
Qed.

(** ** The purchase route: the INSERT turns *)

Lemma exec_all_app ss1 ss2 d : exec_all (ss1 ++ ss2) d = exec_all ss2 (exec_all ss1 d).
Proof. apply foldl_app. Qed.

Lemma record_purchases_app userId oks1 oks2 d :
  record_purchases userId (oks1 ++ oks2) d
  = record_purchases userId oks2 (record_purchases userId oks1 d).
Proof. unfold record_purchases. by rewrite fmap_app, exec_all_app. Qed.

Lemma settlements_app userId oks1 oks2 :
  settlements userId (oks1 ++ oks2) = settlements userId oks1 ++ settlements userId oks2.
Proof. apply bind_app. Qed.

Lemma silent_app ss1 ss2 : silent (ss1 ++ ss2) = silent ss1 ++ silent ss2.
Proof. apply fmap_app. Qed.

(** While ids are still outstanding the INSERT callback only counts. *)
Lemma inserts_run_counting req userId n oks : ∀ d q cs e cr c,
  cs !! req = Some c →
  (completedPurchases c + length (errors c) + length oks < n)%nat →
  run (length oks)
      {| database := d; queue := inserts req userId n oks ++ q; cells := cs;
         on_error := e; crashed := cr |}
  = {| database := record_purchases userId oks d;
       queue := q ++ silent (settlements userId oks);
       cells := alter (add_completed (length oks)) req cs;
       on_error := e; crashed := cr |}.
Proof.
  induction oks as [|[id p] oks IH]; intros d q cs e cr c Hc Hn.
  - simpl. rewrite app_nil_r. f_equal. symmetry. apply list_alter_id. by intros [].
  - cbn [length] in Hn. cbn [length run]. unfold step.
    cbn [queue inserts fmap list_fmap app fst snd exec database invoke].
    unfold purchase_insert, the_cell, on_cell, db_run, set_cells, set_queue, set_database.
    cbn [queue cells database on_error crashed].
    rewrite list_lookup_alter_eq, Hc.
  cbn [fmap option_fmap option_map from_option]. unfold Datatypes.id.
    cbn [incr_completed completedPurchases errors].
    rewrite decide_False by lia.
    fold (inserts req userId n oks). rewrite <- !app_assoc.
    rewrite (IH _ _ _ _ _ (incr_completed c)).
    + f_equal.
      * by rewrite <- !app_assoc.
      * rewrite list_alter_alter_eq. apply list_alter_ext; [|done].
        intros [k es r] _. unfold add_completed, incr_completed. cbn. f_equal. lia.
    + by rewrite list_lookup_alter_eq, Hc.
    + cbn. lia.
Qed.

Lemma inserts_run_last req userId n ok d q cs e cr c :
  cs !! req = Some c →
  (completedPurchases c + length (errors c) + 1 = n)%nat →
  run 1 {| database := d; queue := inserts req userId n [ok] ++ q; cells := cs;
           on_error := e; crashed := cr |}
  = {| database := record_purchases userId [ok] d;
       queue := q ++ silent (settlements userId [ok] ++ [(verdict (incr_completed c)).1]);
       cells := alter (λ c, send (verdict (incr_completed c)).2 (incr_completed c)) req cs;
       on_error := e; crashed := cr |}.
Proof.
  intros Hc Hn. destruct ok as [id p]. cbn [run]. unfold step.
  cbn [queue inserts fmap list_fmap app fst snd exec database invoke].
  unfold purchase_insert, the_cell, on_cell, db_run, set_cells, set_queue, set_database.
  cbn [queue cells database on_error crashed].
  rewrite list_lookup_alter_eq, Hc.
  cbn [fmap option_fmap option_map from_option]. unfold Datatypes.id.
  cbn [incr_completed completedPurchases errors].
  rewrite decide_True by lia. unfold verdict. cbn [incr_completed errors completedPurchases].
  destruct (decide (0 < length (errors c))%nat) as [He|He]; cbn [fst snd];
    unfold res_json, on_cell, db_run, set_cells, set_queue;
    cbn [queue cells database on_error crashed]; f_equal.
  - by rewrite <- !app_assoc.
  - rewrite list_alter_alter_eq. apply list_alter_ext; [|done].
    intros c' Hc'. assert (c' = c) as -> by congruence.
    cbn. by rewrite decide_True.
  - by rewrite <- !app_assoc.
  - rewrite list_alter_alter_eq. apply list_alter_ext; [|done].
    intros c' Hc'. assert (c' = c) as -> by congruence.
    cbn. by rewrite decide_False.
Qed.

Lemma inserts_run req userId n oks ok d q cs e cr c :
  cs !! req = Some c →
  (completedPurchases c + length (errors c) + length (oks ++ [ok]) = n)%nat →
  let c' := add_completed (length (oks ++ [ok])) c in
  run (length (oks ++ [ok]))
      {| database := d; queue := inserts req userId n (oks ++ [ok]) ++ q; cells := cs;
         on_error := e; crashed := cr |}
  = {| database := record_purchases userId (oks ++ [ok]) d;
       queue := q ++ silent (settlements userId (oks ++ [ok]) ++ [(verdict c').1]);
       cells := alter (λ _, send (verdict c').2 c') req cs;
       on_error := e; crashed := cr |}.
Proof.
  intros Hc Hn. cbv zeta. set (k := length (oks ++ [ok])).
  assert (k = S (length oks)) as Hk by (unfold k; rewrite length_app; simpl; lia).
  replace (run k) with (run (length oks + 1)) by (f_equal; lia).
  rewrite run_add. unfold inserts. rewrite fmap_app, <- app_assoc.
  fold (inserts req userId n oks). fold (inserts req userId n [ok]).
  rewrite (inserts_run_counting _ _ _ _ _ _ _ _ _ c) by (done || lia).
  assert (incr_completed (add_completed (length oks) c) = add_completed k c) as Hc'.
  { unfold incr_completed, add_completed. cbn. f_equal. lia. }
  rewrite <- app_assoc.
  rewrite (inserts_run_last _ _ _ _ _ _ _ _ _ (add_completed (length oks) c)).
  - rewrite Hc'. f_equal.
    + by rewrite record_purchases_app.
    + rewrite settlements_app, !silent_app, <- !app_assoc. done.
    + rewrite list_alter_alter_eq. apply list_alter_ext; [|done].
      intros x Hx. assert (x = c) as -> by congruence. cbn. by rewrite Hc'.
  - by rewrite list_lookup_alter_eq, Hc.
  - cbn. lia.
Qed.

(** ** The purchase route: the turns without callback *)

Lemma silent_run ss : ∀ d q cs e cr,
  Forall never_fails ss →
  run (length ss)
      {| database := d; queue := silent ss ++ q; cells := cs; on_error := e;
         crashed := cr |}
  = {| database := exec_all ss d; queue := q; cells := cs; on_error := e;
       crashed := cr |}.
Proof.
  induction ss as [|s ss IH]; intros d q cs e cr Hss; [done|].
  inversion Hss as [|? ? Hs Hss']; subst.
  cbn [length run]. unfold step. cbn [queue silent fmap list_fmap app database].
  fold (silent ss).
  destruct s; try done; cbn [exec invoke]; unfold set_queue, set_database;
    cbn [queue database cells on_error crashed]; by rewrite IH.
Qed.

Lemma settlements_never_fail userId oks : Forall never_fails (settlements userId oks).
Proof.
  induction oks as [|ok oks IH]; [constructor|].
  unfold settlements. cbn. by repeat constructor.
Qed.

Lemma txn_exec_all ss d : Forall never_fails ss → txn (exec_all ss d) = txn d.
Proof.
  revert d. induction ss as [|s ss IH]; intros d Hss; [done|].
  inversion Hss as [|? ? Hs Hss']; subst.
  change (exec_all (s :: ss) d) with (exec_all ss (exec s d).1).
  rewrite IH by done. by destruct s.
Qed.

Lemma inserts_never_fail userId (oks : list (Z * product)) :
  Forall never_fails
    ((λ ok, insert_purchase userId ok.1 (p_user_id ok.2) (p_price ok.2)) <$> oks).
Proof. induction oks; by constructor. Qed.

Lemma txn_record_purchases userId oks d : txn (record_purchases userId oks d) = txn d.
Proof. apply txn_exec_all, inserts_never_fail. Qed.

(** The last turn of a batch: COMMIT or ROLLBACK inside the transaction. *)
Lemma closing_run s d t0 cs e cr :
  s = commit ∨ s = rollback → txn d = Some t0 →
  run 1 {| database := d; queue := silent [s]; cells := cs; on_error := e;
           crashed := cr |}
  = {| database := (exec s d).1; queue := []; cells := cs; on_error := e;
       crashed := cr |}.
Proof.
  intros [-> | ->] Ht; cbn [run]; unfold step; cbn; by rewrite Ht.
Qed.

(** ** The purchase route as a whole *)

Lemma queue_selects req userId n ids w :
  foldl (λ w productId,
           db_run (select_available productId)
                  (purchase_on_select req userId n productId) w) w ids
  = set_queue (queue w ++ selects req userId n ids) w.
Proof.
  revert w. induction ids as [|id ids IH]; intros w.
  - simpl. rewrite app_nil_r. by destruct w.
  - cbn [foldl]. rewrite IH. unfold db_run, set_queue. cbn. by rewrite <- app_assoc.
Qed.

Lemma accepted_or_refused t userId ids :
  (length (omap (accepted t userId) ids) + length (omap (refused t userId) ids))%nat
  = length ids.
Proof.
  induction ids as [|id ids IH]; [done|]. cbn [omap list_omap length].
  fold (omap (accepted t userId) ids). fold (omap (refused t userId) ids).
  destruct (accepted t userId id) eqn:Ha, (refused t userId id) eqn:Hr;
    cbn [length]; try lia; exfalso; revert Ha Hr; unfold accepted, refused;
    destruct (available_product t id); try destruct (decide _); done.
Qed.

Lemma alter_last (f : cell → cell) (cs : list cell) c :
  alter f (length cs) (cs ++ [c]) = cs ++ [f c].
Proof.
  replace (length cs) with (length cs + 0)%nat by lia. by rewrite alter_app_r.
Qed.

(** A well-formed body: a non-empty array of ids. *)
Lemma post_purchase_array userId ids w :
  ids ≠ [] →
  post_purchase userId (js_array ids) w
  = {| database := database w;
       queue := queue w ++ silent [begin_transaction]
                ++ selects (length (cells w)) userId (length ids) ids;
       cells := cells w ++ [new_cell];
       on_error := on_error w; crashed := crashed w |}.
Proof.
  intros Hids. unfold post_purchase. cbn [truthy isArray array_items negb orb].
  rewrite bool_decide_eq_false_2 by (by destruct ids).
  rewrite queue_selects. unfold db_run, accept, set_queue, set_cells. cbn.
  by rewrite <- app_assoc.
Qed.

Lemma tabs_begun d : tabs (begun d) = tabs d.
Proof. unfold begun. cbn. by destruct (txn d). Qed.

Lemma txn_begun d : txn (begun d) = Some (default (tabs d) (txn d)).
Proof. unfold begun. cbn. destruct (txn d) eqn:Ht; cbn; by rewrite ?Ht. Qed.

Lemma begin_run d q cs e cr :
  txn d = None ∨ e = unheard →
  run 1 {| database := d; queue := silent [begin_transaction] ++ q; cells := cs;
           on_error := e; crashed := cr |}
  = {| database := begun d; queue := q; cells := cs; on_error := e; crashed := cr |}.
Proof.
  intros H. cbn [run]. unfold step, begun. cbn [queue silent fmap list_fmap app database exec].
  destruct (txn d) as [t0|] eqn:Ht; cbn; [|done]. by destruct H as [? | ->].
Qed.

(** A transaction is open and nothing listens to [error] events: BEGIN
    fails and takes the process down. *)
Lemma begin_crash d t0 q cs cr :
  txn d = Some t0 →
  run 1 {| database := d; queue := silent [begin_transaction] ++ q; cells := cs;
           on_error := uncaught; crashed := cr |}
  = {| database := d; queue := []; cells := cs; on_error := uncaught;
       crashed := true |}.
Proof. intros Ht. cbn [run]. unfold step. cbn. by rewrite Ht. Qed.

(** No id of the batch passes its SELECT callback: the batch ends with its
    errors collected, nothing sent, and the transaction open. *)
Lemma purchase_none_accepted userId ids w :
  queue w = [] → ids ≠ [] →
  txn (database w) = None ∨ on_error w = unheard →
  omap (accepted (tabs (database w)) userId) ids = [] →
  drain (post_purchase userId (js_array ids) w)
  = {| database := begun (database w); queue := [];
       cells := cells w ++ [push_errors (omap (refused (tabs (database w)) userId) ids)
                                        new_cell];
       on_error := on_error w; crashed := crashed w |}.
Proof.
  intros Hq Hids Hb Hok. rewrite post_purchase_array by done. rewrite Hq. cbn [app].
  apply (drain_to (1 + length ids)); [|done].
  rewrite run_add, begin_run by done.
  rewrite <- (app_nil_r (selects _ _ _ _)), selects_run.
  rewrite tabs_begun, Hok, alter_last. done.
Qed.

(** At least one id passes and the statements run in the order of issue:
    the last INSERT callback answers, and the transaction is closed by COMMIT
    when no error was collected and by ROLLBACK otherwise, after every UPDATE
    and DELETE. *)
Lemma purchase_some_accepted userId ids w :
  queue w = [] →
  txn (database w) = None ∨ on_error w = unheard →
  let t := tabs (database w) in
  let oks := omap (accepted t userId) ids in
  let c := {| completedPurchases := length oks;
              errors := omap (refused t userId) ids; sent := [] |} in
  oks ≠ [] →
  drain (post_purchase userId (js_array ids) w)
  = {| database :=
         (exec (verdict c).1
               (exec_all (settlements userId oks)
                         (record_purchases userId oks (begun (database w))))).1;
       queue := [];
       cells := cells w ++ [send (verdict c).2 c];
       on_error := on_error w; crashed := crashed w |}.
Proof.
  intros Hq Hb t oks c Hoks.
  assert (ids ≠ []) as Hids by (intros ->; by apply Hoks).
  rewrite post_purchase_array by done. rewrite Hq. cbn [app].
  destruct (exists_last Hoks) as (oks' & ok & Hlast).
  pose proof (accepted_or_refused t userId ids) as Hlen. fold oks in Hlen.
  apply (drain_to (1 + length ids + length oks + length (settlements userId oks) + 1));
    [|done].
  rewrite !run_add, begin_run by done.
  rewrite <- (app_nil_r (selects _ _ _ _)), selects_run, tabs_begun.
  fold t oks. cbn [app]. rewrite alter_last.
  rewrite <- (app_nil_r (inserts _ _ _ _)). rewrite Hlast.
  rewrite (inserts_run _ _ _ _ _ _ _ _ _ _
             (push_errors (omap (refused t userId) ids) new_cell)).
  - rewrite <- Hlast. cbn [app]. rewrite silent_app, silent_run
      by apply settlements_never_fail.
    assert (add_completed (length oks)
              (push_errors (omap (refused t userId) ids) new_cell) = c) as ->.
    { unfold add_completed, push_errors, c. cbn. f_equal. lia. }
    erewrite closing_run.
    + f_equal. by rewrite alter_last.
    + unfold verdict. destruct (decide _); cbn; auto.
    + rewrite txn_exec_all by apply settlements_never_fail.
      rewrite txn_record_purchases. apply txn_begun.
  - by apply list_lookup_middle.
  - rewrite <- Hlast. cbn. lia.
Qed.

(** ** The buy-now route as a whole *)

Lemma post_buy_now_asks userId id pm w :
  id ≠ 0 → pm ≠ "" →
  post_buy_now userId (Some id) (Some pm) w
  = {| database := database w;
       queue := queue w ++ [(select_available id,
                             buy_now_on_select (length (cells w)) userId id pm)];
       cells := cells w ++ [new_cell];
       on_error := on_error w; crashed := crashed w |}.
Proof.
  intros Hid Hpm. unfold post_buy_now.
  destruct id as [|id|id]; [done| |]; (destruct pm as [|a pm]; [done|]); done.
Qed.

(** The product is missing or not available: 404, nothing touched. *)
Lemma buy_now_unavailable userId id pm w :
  queue w = [] → id ≠ 0 → pm ≠ "" →
  available_product (tabs (database w)) id = None →
  drain (post_buy_now userId (Some id) (Some pm) w)
  = {| database := database w; queue := [];
       cells := cells w ++ [send (failure 404 "Product not found or unavailable") new_cell];
       on_error := on_error w; crashed := crashed w |}.
Proof.
  intros Hq Hid Hpm Hav. rewrite post_buy_now_asks, Hq by done.
  apply (drain_to 1); [|done]. turn. unfold buy_now_select. rewrite Hav. reduce.
  by rewrite alter_last; destruct (database w).
Qed.

(** The product is available and the buyer's own: 400, nothing touched. *)
Lemma buy_now_own userId id pm p w :
  queue w = [] → id ≠ 0 → pm ≠ "" →
  available_product (tabs (database w)) id = Some p → p_user_id p = userId →
  drain (post_buy_now userId (Some id) (Some pm) w)
  = {| database := database w; queue := [];
       cells := cells w ++ [send (failure 400 "Cannot purchase your own product") new_cell];
       on_error := on_error w; crashed := crashed w |}.
Proof.
  intros Hq Hid Hpm Hav Hown. rewrite post_buy_now_asks, Hq by done.
  apply (drain_to 1); [|done]. turn. unfold buy_now_select. rewrite Hav.
  rewrite decide_True by done. reduce.
  by rewrite alter_last; destruct (database w).
Qed.

(** The product is available and another user's: the purchase is recorded,
    the product marked sold, the transaction committed, and the buyer told. *)
Lemma buy_now_sells userId id pm p w :
  queue w = [] → id ≠ 0 → pm ≠ "" →
  txn (database w) = None ∨ on_error w = unheard →
  available_product (tabs (database w)) id = Some p → p_user_id p ≠ userId →
  let t := tabs (database w) in
  drain (post_buy_now userId (Some id) (Some pm) w)
  = {| database :=
         {| tabs := set_products (alter mark_sold id)
                      (add_purchase userId id (p_user_id p) (p_price p) t);
            txn := None |};
       queue := [];
       cells := cells w ++ [send (buy_now_sent (purchases_seq t + 1) id p pm) new_cell];
       on_error := on_error w; crashed := crashed w |}.
Proof.
  intros Hq Hid Hpm Hb Hav Hown t. rewrite post_buy_now_asks, Hq by done.
  apply (drain_to 5); [|done]. turn. unfold buy_now_select. rewrite Hav.
  rewrite decide_False by done. reduce. turn.
  destruct (txn (database w)) as [t0|] eqn:Ht.
  - destruct Hb as [?| He]; [done|]. rewrite He. reduce. turn. rewrite Ht.
    unfold buy_now_insert. reduce. turn. unfold buy_now_update. reduce. turn.
    by rewrite alter_last.
  - reduce. turn. unfold buy_now_insert. reduce. turn. unfold buy_now_update. reduce. turn.
    by rewrite alter_last.
Qed.

(** A transaction was left open and nothing listens to [error] events: the
    BEGIN of buy-now takes the process down before anything is written. *)
Lemma buy_now_crashes userId id pm p t0 w :
  queue w = [] → id ≠ 0 → pm ≠ "" →
  txn (database w) = Some t0 → on_error w = uncaught →
  available_product (tabs (database w)) id = Some p → p_user_id p ≠ userId →
  drain (post_buy_now userId (Some id) (Some pm) w)
  = {| database := database w; queue := []; cells := cells w ++ [new_cell];
       on_error := on_error w; crashed := true |}.
Proof.
  intros Hq Hid Hpm Ht He Hav Hown. rewrite post_buy_now_asks, Hq by done.
  apply (drain_to 2); [|done]. turn. unfold buy_now_select. rewrite Hav.
  rewrite decide_False by done. reduce. turn. rewrite Ht, He. cbn.
  by destruct (database w).
Qed.

(** ** What the statements of a batch do to the tables *)

Lemma record_purchases_cons userId ok oks d :
  record_purchases userId (ok :: oks) d
  = record_purchases userId oks
      {| tabs := add_purchase userId ok.1 (p_user_id ok.2) (p_price ok.2) (tabs d);
         txn := txn d |}.
Proof. done. Qed.

Lemma settlements_cons userId ok oks d :
  exec_all (settlements userId (ok :: oks)) d
  = exec_all (settlements userId oks)
      {| tabs := set_cart (λ c, c ∖ {[ (userId, ok.1) ]})
                   (set_products (alter mark_sold ok.1) (tabs d));
         txn := txn d |}.
Proof. done. Qed.

Lemma products_record_purchases userId oks d :
  products (tabs (record_purchases userId oks d)) = products (tabs d).
Proof.
  revert d. induction oks as [|ok oks IH]; intros d; [done|].
  by rewrite record_purchases_cons, IH.
Qed.

Lemma cart_record_purchases userId oks d :
  cart (tabs (record_purchases userId oks d)) = cart (tabs d).
Proof.
  revert d. induction oks as [|ok oks IH]; intros d; [done|].
  by rewrite record_purchases_cons, IH.
Qed.

Lemma purchases_settlements userId oks d :
  purchases (tabs (exec_all (settlements userId oks) d)) = purchases (tabs d).
Proof.
  revert d. induction oks as [|ok oks IH]; intros d; [done|].
  by rewrite settlements_cons, IH.
Qed.

Lemma products_settlements userId oks d id :
  products (tabs (exec_all (settlements userId oks) d)) !! id
  = if decide (id ∈ oks.*1) then mark_sold <$> products (tabs d) !! id
    else products (tabs d) !! id.
Proof.
  revert d. induction oks as [|ok oks IH]; intros d.
  - cbn. rewrite decide_False; [done|]. apply not_elem_of_nil.
  - rewrite settlements_cons, IH. cbn [tabs set_cart set_products products fmap list_fmap].
    destruct (decide (id = ok.1)) as [->|Hne].
    + rewrite lookup_alter_eq. rewrite (decide_True (P := _ ∈ _ :: _)) by left.
      destruct (decide _); [|done].
      destruct (products (tabs d) !! ok.1); by cbn.
    + rewrite lookup_alter_ne by done.
      destruct (decide (id ∈ oks.*1)) as [Hin|Hin].
      * rewrite decide_True by by right. done.
      * rewrite decide_False; [done|]. rewrite elem_of_cons. intros [?|?]; done.
Qed.

Lemma cart_settlements userId oks d (x : Z * Z) :
  x ∈ cart (tabs (exec_all (settlements userId oks) d))
  ↔ x ∈ cart (tabs d) ∧ ¬ (x.1 = userId ∧ x.2 ∈ oks.*1).
Proof.
  revert d. induction oks as [|ok oks IH]; intros d.
  - cbn. split; [|by intros [? _]]. intros Hx. split; [done|].
    intros [_ H]. by apply elem_of_nil in H.
  - rewrite settlements_cons, IH. cbn [tabs set_cart set_products cart fmap list_fmap].
    rewrite elem_of_difference, elem_of_singleton, elem_of_cons.
    destruct x as [u i]. cbn. split.
    + intros [[Hx Hne] Hno]. split; [done|]. intros [-> [-> | Hin]]; [done|].
      apply Hno. done.
    + intros [Hx Hno]. split; [split; [done|]|].
      * intros [= -> ->]. apply Hno. auto.
      * intros [-> Hin]. apply Hno. auto.
Qed.

Lemma available_product_Some t id p :
  available_product t id = Some p
  ↔ products t !! id = Some p ∧ p_status p = "available".
Proof.
  unfold available_product. destruct (products t !! id) as [p'|].
  - destruct (decide _) as [Hs|Hs]; split.
    + by intros [= ->].
    + by intros [[= ->] _].
    + done.
    + by intros [[= ->] ?].
  - split; [done | by intros [? _]].
Qed.

Lemma available_product_None t id :
  available_product t id = None
  ↔ ∀ p, products t !! id = Some p → p_status p ≠ "available".
Proof.
  unfold available_product. destruct (products t !! id) as [p'|].
  - destruct (decide _) as [Hs|Hs]; split.
    + done.
    + intros H. by destruct (H p').
    + by intros _ p [= ->].
    + done.
  - split; [by intros _ p | done].
Qed.

(** ** Requests refused before any statement is issued *)

Lemma res_json_accept code b w :
  res_json (length (cells w)) code b (accept w)
  = answered {| status_code := code; body := b |} w.
Proof.
  unfold res_json, on_cell, accept, set_cells, answered. cbn. by rewrite alter_last.
Qed.

Lemma post_purchase_malformed userId v w :
  v = js_undefined ∨ isArray v = false ∨ v = js_array [] →
  post_purchase userId v w
  = answered (failure 400 "Product IDs array is required") w.
Proof.
  intros Hv. unfold post_purchase.
  assert (negb (truthy v) || negb (isArray v)
          || bool_decide (length (array_items v) = 0%nat) = true) as ->.
  { destruct Hv as [-> | [Hv | ->]]; [done| |done].
    rewrite Hv. cbn. by rewrite orb_true_r. }
  apply res_json_accept.
Qed.

Lemma post_buy_now_no_product userId product_id payment_method w :
  product_id = None ∨ product_id = Some 0 →
  post_buy_now userId product_id payment_method w
  = answered (failure 400 "Product ID is required") w.
Proof. intros [-> | ->]; apply res_json_accept. Qed.

Lemma post_buy_now_no_payment userId id payment_method w :
  id ≠ 0 → payment_method = None ∨ payment_method = Some "" →
  post_buy_now userId (Some id) payment_method w
  = answered (failure 400 "Payment method is required") w.
Proof.
  intros Hid Hpm. unfold post_buy_now.
  destruct id; [done| |]; destruct Hpm as [-> | ->]; apply res_json_accept.
Qed.

(** A batch that arrives while a transaction is open, with nothing listening
    to [error] events: its BEGIN takes the process down. *)
Lemma purchase_crashes userId ids t0 w :
  queue w = [] → ids ≠ [] →
  txn (database w) = Some t0 → on_error w = uncaught →
  drain (post_purchase userId (js_array ids) w)
  = {| database := database w; queue := []; cells := cells w ++ [new_cell];
       on_error := on_error w; crashed := true |}.
Proof.
  intros Hq Hids Ht He. rewrite post_purchase_array, Hq, He by done. cbn [app].
  apply (drain_to 1); [|done]. by apply (begin_crash _ t0).
Qed.

(** ** The delete route *)

Lemma delete_products_owned userId id p w :
  queue w = [] →
  products (tabs (database w)) !! id = Some p → p_user_id p = userId →
  drain (delete_products userId id w)
  = {| database := {| tabs := set_products (delete id) (tabs (database w));
                      txn := txn (database w) |};
       queue := [];
       cells := cells w ++ [send {| status_code := 200;
                                    body := message_body "Product deleted successfully" |}
                                 new_cell];
       on_error := on_error w; crashed := crashed w |}.
Proof.
  intros Hq Hp Hown. unfold delete_products, accept, db_run, set_queue, set_cells.
  cbn [queue cells database on_error crashed]. rewrite Hq. cbn [app].
  apply (drain_to 1); [|done]. turn. unfold owned_product. rewrite Hp.
  rewrite bool_decide_eq_true_2 by done. reduce. unfold delete_run.
  rewrite decide_False by done. reduce. by rewrite alter_last.
Qed.

(** ** Auxiliary facts for the claims *)

Lemma the_cell_new d q cs c e cr :
  the_cell (length cs)
    {| database := d; queue := q; cells := cs ++ [c]; on_error := e; crashed := cr |} = c.
Proof. unfold the_cell. cbn. by rewrite list_lookup_middle. Qed.

Lemma sold_not_available t id p :
  products t !! id = Some p → p_status p = "sold" → available_product t id = None.
Proof.
  intros Hp Hs. apply available_product_None. intros p' Hp'.
  assert (p' = p) as -> by congruence. by rewrite Hs.
Qed.

Lemma own_not_accepted t userId id p :
  products t !! id = Some p → p_user_id p = userId → accepted t userId id = None.
Proof.
  intros Hp Hown. unfold accepted.
  destruct (available_product t id) as [p'|] eqn:Hav; [|done].
  destruct (proj1 (available_product_Some _ _ _) Hav) as [Hp' _].
  assert (p' = p) as -> by congruence. by rewrite decide_True.
Qed.

Lemma purchasable_accepted t userId id :
  purchasable t userId id → ∃ p, accepted t userId id = Some (id, p)
                                 ∧ refused t userId id = None.
Proof.
  intros (p & Hp & Hs & Hown). exists p. unfold accepted, refused.
  assert (available_product t id = Some p) as -> by by apply available_product_Some.
  by rewrite !decide_False.
Qed.

Lemma all_accepted t userId ids :
  Forall (purchasable t userId) ids →
  (omap (accepted t userId) ids).*1 = ids ∧ omap (refused t userId) ids = [].
Proof.
  induction 1 as [|id ids Hid _ [IH1 IH2]]; [done|].
  destruct (purchasable_accepted _ _ _ Hid) as (p & Ha & Hr).
  cbn [omap list_omap]. rewrite Ha, Hr. cbn. split; [by f_equal | done].
Qed.

Lemma exec_commit d t0 :
  txn d = Some t0 → (exec commit d).1 = {| tabs := tabs d; txn := None |}.
Proof. intros Ht. cbn. by rewrite Ht. Qed.

Lemma txn_settled userId oks d :
  txn (exec_all (settlements userId oks) (record_purchases userId oks (begun d)))
  = Some (default (tabs d) (txn d)).
Proof.
  rewrite txn_exec_all by apply settlements_never_fail.
  rewrite txn_record_purchases. apply txn_begun.
Qed.

Lemma begin_cases d e :
  (txn d = None ∨ e = unheard) ∨ (∃ t0, txn d = Some t0 ∧ e = uncaught).
Proof. destruct (txn d), e; eauto. Qed.

(** ** The purchase route in any order *)

(** The INSERT callback, on a world given by its fields. *)
Lemma purchase_insert_counting userId n id lastID changes d q cs c e cr :
  (completedPurchases c + length (errors c) + 1 ≠ n)%nat →
  purchase_insert (length cs) userId n id (ran lastID changes)
    {| database := d; queue := q; cells := cs ++ [c]; on_error := e; crashed := cr |}
  = {| database := d;
       queue := q ++ silent [update_sold id; delete_cart userId id];
       cells := cs ++ [incr_completed c]; on_error := e; crashed := cr |}.
Proof.
  destruct c as [k es snt]. cbn [completedPurchases errors].
  intros Hn. unfold purchase_insert, the_cell, on_cell, db_run, set_cells, set_queue.
  cbn [queue cells database on_error crashed]. rewrite alter_last, list_lookup_middle by done.
  cbn [default from_option]. unfold Datatypes.id, incr_completed.
  cbn [completedPurchases errors sent].
  rewrite decide_False by lia. by rewrite <- app_assoc.
Qed.

Lemma purchase_insert_last userId n id lastID changes d q cs c e cr :
  (completedPurchases c + length (errors c) + 1 = n)%nat →
  purchase_insert (length cs) userId n id (ran lastID changes)
    {| database := d; queue := q; cells := cs ++ [c]; on_error := e; crashed := cr |}
  = {| database := d;
       queue := q ++ silent [update_sold id; delete_cart userId id;
                             (verdict (incr_completed c)).1];
       cells := cs ++ [send (verdict (incr_completed c)).2 (incr_completed c)];
       on_error := e; crashed := cr |}.
Proof.
  destruct c as [k es snt]. cbn [completedPurchases errors].
  intros Hn. unfold purchase_insert, the_cell, on_cell, db_run, set_cells, set_queue.
  cbn [queue cells database on_error crashed]. rewrite alter_last, list_lookup_middle by done.
  cbn [default from_option]. unfold Datatypes.id, incr_completed.
  cbn [completedPurchases errors sent].
  rewrite decide_True by lia. unfold verdict. cbn [errors completedPurchases].
  destruct (decide (0 < length es)%nat) as [He|He]; cbn [fst snd];
    unfold res_json, on_cell, db_run, set_cells, set_queue;
    cbn [queue cells database on_error crashed]; rewrite alter_last, <- !app_assoc; done.
Qed.

Lemma settled_nil t userId : settled t userId [] [] [] = t.
Proof.
  destruct t as [u p c ps n]. unfold settled. cbn. f_equal; [apply app_nil_r | lia].
Qed.

Lemma settled_add t userId recorded updated deleted ok :
  add_purchase userId ok.1 (p_user_id ok.2) (p_price ok.2)
    (settled t userId recorded updated deleted)
  = settled t userId (recorded ++ [ok]) updated deleted.
Proof.
  unfold add_purchase, settled, purchase_rows. cbn. f_equal.
  - rewrite imap_app, <- app_assoc. cbn. do 3 f_equal. unfold purchase_row. f_equal. lia.
  - rewrite length_app. cbn. lia.
Qed.

(** Every turn, whichever statement it takes, leads from one of the worlds
    of [settling] to another. *)
Lemma settling_step t userId oks errs cs0 e cr i w w' :
  settling t userId oks errs cs0 e cr w → step_at i w = Some w' →
  settling t userId oks errs cs0 e cr w'.
Proof.
  intros [todo recorded pu pd updated deleted open Hd Hq Hc He Hcr
            Hclosed Hrec Hrb HU HD HoU HoD] Hstep.
  destruct w as [d q cs e0 cr0]. cbn in Hd, Hq, Hc, He, Hcr. subst d cs e0 cr0.
  unfold step_at in Hstep. cbn [queue database] in Hstep.
  destruct (q !! i) as [[s cb]|] eqn:Hi; [|done].
  destruct (ready q i); [|done].
  assert ((s, cb) ∈ q) as Hin by (by eapply list_elem_of_lookup_2).
  pose proof (delete_Permutation q i _ Hi) as Hdel. rewrite Hq in Hdel at 1.
  rewrite Hq in Hin. clear Hq Hi.
  unfold set_queue, set_database in Hstep. cbn [queue cells database on_error crashed] in Hstep.
  set (q' := delete i q) in *. clearbody q'. clear q.
  rewrite !elem_of_app in Hin. destruct Hin as [Hin | [Hin | [Hin | Hin]]].
  - (* an INSERT of the batch *)
    apply list_elem_of_fmap in Hin as (ok & Heq & Hok). injection Heq as -> ->.
    apply elem_of_Permutation in Hok as [todo' Htodo].
    assert (todo ≠ []) as Hne.
    { intros ->. symmetry in Htodo. by apply Permutation_nil_r in Htodo. }
    destruct open; [|by destruct Hne; apply Hclosed].
    rewrite bool_decide_eq_false_2 in Hdel by done. cbn [andb] in Hdel.
    unfold inserts in Hdel at 1. rewrite Htodo in Hdel. cbn [fmap list_fmap app] in Hdel.
    apply Permutation_cons_inv in Hdel. fold (inserts (length cs0) userId
      (length oks + length errs) todo') in Hdel.
    assert (length todo = S (length todo')) as Hlen by (by rewrite Htodo).
    assert (length recorded + length todo = length oks)%nat as Hlen'.
    { rewrite <- length_app. apply Permutation_length, Hrec. by left. }
    cbn [exec tabs txn] in Hstep. injection Hstep as <-. cbn [invoke].
    rewrite bool_decide_eq_false_2 by done.
    destruct (decide (todo' = [])) as [->|Hne'].
    + cbn [length] in Hlen. rewrite purchase_insert_last by (cbn; lia).
      assert (incr_completed
                {| completedPurchases := length oks - length todo; errors := errs;
                   sent := [] |}
              = final_cell oks errs) as ->.
      { unfold incr_completed, final_cell. cbn. f_equal. cbn in Hlen. lia. }
      apply (settling_intro _ _ _ _ _ _ _ _ [] (recorded ++ [ok]) (pu ++ [ok.1])
               (pd ++ [ok.1]) updated deleted true);
        cbn [database queue cells on_error crashed andb]; try done.
      * by rewrite settled_add.
      * rewrite bool_decide_eq_true_2 by done. rewrite <- Hdel.
        rewrite !fmap_app. unfold silent, inserts. rewrite !fmap_app. cbn.
        solve_Permutation.
      * rewrite bool_decide_eq_true_2 by done. do 2 f_equal.
        unfold send, final_cell. cbn. f_equal. lia.
      * intros _. rewrite app_nil_r. rewrite <- (Hrec (or_introl eq_refl)), Htodo.
        solve_Permutation.
      * rewrite app_assoc. apply Forall_app. split; [done|]. constructor; [|done].
        apply list_elem_of_fmap. exists ok. split; [done|].
        rewrite <- (Hrec (or_introl eq_refl)), Htodo. set_solver.
      * rewrite app_assoc. apply Forall_app. split; [done|]. constructor; [|done].
        apply list_elem_of_fmap. exists ok. split; [done|].
        rewrite <- (Hrec (or_introl eq_refl)), Htodo. set_solver.
      * intros Herrs id Hid. destruct (HoU Herrs id Hid) as [H | [H | H]]; [|set_solver..].
        rewrite Htodo in H. set_solver.
      * intros Herrs id Hid. destruct (HoD Herrs id Hid) as [H | [H | H]]; [|set_solver..].
        rewrite Htodo in H. set_solver.
    + assert (length todo' ≠ 0)%nat as Hpos by (by destruct todo').
      rewrite purchase_insert_counting by (cbn; lia).
      apply (settling_intro _ _ _ _ _ _ _ _ todo' (recorded ++ [ok]) (pu ++ [ok.1])
               (pd ++ [ok.1]) updated deleted true);
        cbn [database queue cells on_error crashed andb]; try done.
      * by rewrite settled_add.
      * rewrite bool_decide_eq_false_2 by done. rewrite <- Hdel.
        rewrite !fmap_app. unfold silent, inserts. rewrite !fmap_app. cbn.
        solve_Permutation.
      * rewrite bool_decide_eq_false_2 by done. do 2 f_equal.
        unfold incr_completed. cbn. f_equal. lia.
      * intros _. rewrite <- (Hrec (or_introl eq_refl)), Htodo. solve_Permutation.
      * rewrite app_assoc. apply Forall_app. split; [done|]. constructor; [|done].
        apply list_elem_of_fmap. exists ok. split; [done|].
        rewrite <- (Hrec (or_introl eq_refl)), Htodo. set_solver.
      * rewrite app_assoc. apply Forall_app. split; [done|]. constructor; [|done].
        apply list_elem_of_fmap. exists ok. split; [done|].
        rewrite <- (Hrec (or_introl eq_refl)), Htodo. set_solver.
      * intros Herrs id Hid. destruct (HoU Herrs id Hid) as [H | [H | H]]; [|set_solver..].
        rewrite Htodo in H. set_solver.
      * intros Herrs id Hid. destruct (HoD Herrs id Hid) as [H | [H | H]]; [|set_solver..].
        rewrite Htodo in H. set_solver.
  - (* an UPDATE *)
    apply list_elem_of_fmap in Hin as (s' & Heq & Hin). injection Heq as -> ->.
    apply list_elem_of_fmap in Hin as (id & -> & Hin).
    apply elem_of_Permutation in Hin as [pu' Hpu].
    unfold silent in Hdel at 1. rewrite Hpu in Hdel. cbn [fmap list_fmap app] in Hdel.
    rewrite <- Permutation_middle in Hdel. apply Permutation_cons_inv in Hdel.
    cbn [exec tabs txn] in Hstep. injection Hstep as <-. cbn [invoke].
    apply (settling_intro _ _ _ _ _ _ _ _ todo recorded pu' pd (id :: updated) deleted open);
      cbn [database queue cells on_error crashed]; try done.
    + rewrite Hpu in HU. rewrite <- Permutation_middle in HU. done.
    + intros Herrs i' Hi'. destruct (HoU Herrs i' Hi') as [H | [H | H]]; [by left| |set_solver].
      rewrite Hpu in H. set_solver.
  - (* a DELETE *)
    apply list_elem_of_fmap in Hin as (s' & Heq & Hin). injection Heq as -> ->.
    apply list_elem_of_fmap in Hin as (id & -> & Hin).
    apply elem_of_Permutation in Hin as [pd' Hpd].
    unfold silent in Hdel at 2. rewrite Hpd in Hdel. cbn [fmap list_fmap app] in Hdel.
    rewrite (app_assoc (inserts _ _ _ _)) in Hdel.
    rewrite <- Permutation_middle in Hdel. apply Permutation_cons_inv in Hdel.
    rewrite <- app_assoc in Hdel.
    cbn [exec tabs txn] in Hstep. injection Hstep as <-. cbn [invoke].
    apply (settling_intro _ _ _ _ _ _ _ _ todo recorded pu pd' updated (id :: deleted) open);
      cbn [database queue cells on_error crashed]; try done.
    + rewrite Hpd in HD. rewrite <- Permutation_middle in HD. done.
    + intros Herrs i' Hi'. destruct (HoD Herrs i' Hi') as [H | [H | H]]; [by left| |set_solver].
      rewrite Hpd in H. set_solver.
  - (* COMMIT or ROLLBACK *)
    destruct open; [|by apply elem_of_nil in Hin].
    destruct (decide (todo = [])) as [->|Hne];
      [|rewrite bool_decide_eq_false_2 in Hin by done; by apply elem_of_nil in Hin].
    rewrite bool_decide_eq_true_2 in Hin, Hdel by done. cbn [andb] in Hin, Hdel.
    apply list_elem_of_singleton in Hin. injection Hin as -> ->.
    cbn [inserts fmap list_fmap app] in Hdel.
    rewrite app_assoc in Hdel. rewrite <- Permutation_cons_append in Hdel.
    apply Permutation_cons_inv in Hdel.
    unfold verdict, final_cell in Hstep |- *. cbn [errors completedPurchases] in Hstep |- *.
    destruct (decide (0 < length errs)%nat) as [Herr|Herr]; cbn [fst snd] in Hstep |- *.
    + (* ROLLBACK *)
      cbn [exec tabs txn] in Hstep. injection Hstep as <-. cbn [invoke].
      apply (settling_intro _ _ _ _ _ _ _ _ [] [] pu pd [] [] false);
        cbn [database queue cells on_error crashed andb]; try done.
      * by rewrite settled_nil.
      * by rewrite <- Hdel, app_nil_r.
      * rewrite bool_decide_eq_true_2 by done. unfold verdict. cbn [errors].
        by rewrite decide_True.
      * intros [? | ->]; [done | cbn in Herr; lia].
      * by apply Forall_app in HU as [_ ?].
      * by apply Forall_app in HD as [_ ?].
      * intros ->. cbn in Herr. lia.
      * intros ->. cbn in Herr. lia.
    + (* COMMIT *)
      cbn [exec tabs txn] in Hstep. injection Hstep as <-. cbn [invoke].
      assert (errs = []) as -> by (destruct errs; [done | cbn in Herr; lia]).
      apply (settling_intro _ _ _ _ _ _ _ _ [] recorded pu pd updated deleted false);
        cbn [database queue cells on_error crashed andb]; try done.
      * by rewrite <- Hdel, app_nil_r.
      * intros _. apply Hrec. by left.
Qed.

Lemma settling_run t userId oks errs cs0 e cr sched : ∀ w w',
  settling t userId oks errs cs0 e cr w → run_along sched w = Some w' →
  settling t userId oks errs cs0 e cr w'.
Proof.
  induction sched as [|i sched IH]; intros w w' Hw Hrun; cbn in Hrun.
  - by injection Hrun as <-.
  - destruct (step_at i w) as [w1|] eqn:Hi; [|done]. cbn in Hrun.
    eapply IH; [|done]. by eapply settling_step.
Qed.

Lemma selects_cons req userId n id ids :
  selects req userId n (id :: ids)
  = (select_available id, purchase_on_select req userId n id) :: selects req userId n ids.
Proof. done. Qed.

(** While a SELECT of the batch is pending, it is the one that runs. *)
Lemma selects_forced req userId n ids d cs e cr j :
  (j < length ids)%nat →
  forced (run j {| database := d; queue := selects req userId n ids; cells := cs;
                   on_error := e; crashed := cr |}).
Proof.
  intros Hj. rewrite <- (take_drop j ids) at 1.
  unfold selects. rewrite fmap_app. fold (selects req userId n (take j ids)).
  fold (selects req userId n (drop j ids)).
  replace j with (length (take j ids)) at 1 by (rewrite length_take; lia).
  rewrite selects_run. unfold forced. cbn [queue].
  destruct (drop j ids) as [|id ids'] eqn:Hdrop.
  - apply (f_equal length) in Hdrop. rewrite length_drop in Hdrop. cbn in Hdrop. lia.
  - rewrite selects_cons. cbn. destruct (_ ++ _); [done | by left].
Qed.

Lemma batch_first_turns userId ids w :
  queue w = [] → ids ≠ [] → txn (database w) = None →
  let t := tabs (database w) in
  (∀ j, (j < 1 + length ids)%nat → forced (run j (post_purchase userId (js_array ids) w)))
  ∧ run (1 + length ids) (post_purchase userId (js_array ids) w)
    = {| database := {| tabs := t; txn := Some t |};
         queue := inserts (length (cells w)) userId (length ids)
                    (omap (accepted t userId) ids);
         cells := cells w ++ [push_errors (omap (refused t userId) ids) new_cell];
         on_error := on_error w; crashed := crashed w |}.
Proof.
  intros Hq Hids Ht t. rewrite post_purchase_array by done. rewrite Hq. cbn [app].
  assert (begun (database w) = {| tabs := t; txn := Some t |}) as Hb.
  { unfold begun. cbn. by rewrite Ht. }
  split.
  - intros [|j] Hj; [destruct ids; [done | cbn; by left]|].
    change (S j) with (1 + j)%nat. rewrite run_add, begin_run by by left.
    apply selects_forced. lia.
  - rewrite run_add, begin_run by by left.
    rewrite <- (app_nil_r (selects _ _ _ _)), selects_run, tabs_begun, Hb, alter_last.
    done.
Qed.

(** A batch with at least one id that passes, whatever the order of its
    turns: the INSERT callback that runs last answers, the transaction is
    closed, and the tables are those of [settled]. When no error was
    collected, every INSERT, UPDATE and DELETE has had its effect; otherwise
    the rows of the INSERTs are rolled back, and of the UPDATEs and DELETEs
    those that ran after the ROLLBACK have had theirs. *)
Lemma batch_any_order userId ids w sched w' :
  queue w = [] → txn (database w) = None →
  let t := tabs (database w) in
  let oks := omap (accepted t userId) ids in
  let errs := omap (refused t userId) ids in
  oks ≠ [] →
  completes sched (post_purchase userId (js_array ids) w) w' →
  ∃ recorded updated deleted,
    w' = {| database := {| tabs := settled t userId recorded updated deleted; txn := None |};
            queue := [];
            cells := cells w ++ [send (verdict (final_cell oks errs)).2 (final_cell oks errs)];
            on_error := on_error w; crashed := crashed w |}
    ∧ Forall (λ id, id ∈ oks.*1) updated ∧ Forall (λ id, id ∈ oks.*1) deleted
    ∧ (errs = [] → recorded ≡ₚ oks ∧ ∀ id, id ∈ oks.*1 → id ∈ updated ∧ id ∈ deleted)
    ∧ (errs ≠ [] → recorded = []).
Proof.
  intros Hq Ht t oks errs Hoks Hc.
  assert (ids ≠ []) as Hids by (intros ->; by apply Hoks).
  destruct (batch_first_turns userId ids w Hq Hids Ht) as [Hf H1]. fold t oks errs in H1.
  destruct (run_along_forced _ _ _ _ Hf Hc) as (sched' & -> & [Hrun Hq']).
  rewrite H1 in Hrun.
  pose proof (accepted_or_refused t userId ids) as Hlen. fold oks errs in Hlen.
  assert (settling t userId oks errs (cells w) (on_error w) (crashed w) w') as Hw'.
  { eapply settling_run; [|exact Hrun].
    apply (settling_intro _ _ _ _ _ _ _ _ oks [] [] [] [] [] true);
      cbn [database queue cells on_error crashed]; try done.
    - by rewrite settled_nil.
    - rewrite bool_decide_eq_false_2 by done. cbn. by rewrite Hlen, !app_nil_r.
    - rewrite bool_decide_eq_false_2 by done. do 2 f_equal.
      unfold push_errors, new_cell. cbn. f_equal. lia.
    - intros _ id Hid. by left.
    - intros _ id Hid. by left. }
  destruct Hw' as [todo recorded pu pd updated deleted open Hd Hqw Hcs He Hcr
                     Hclosed Hrec Hrb HU HD HoU HoD].
  rewrite Hq' in Hqw. symmetry in Hqw. apply Permutation_nil_r in Hqw.
  apply app_eq_nil in Hqw as [Hi Hqw]. apply fmap_nil_inv in Hi as ->.
  apply app_eq_nil in Hqw as [Hu Hqw]. apply fmap_nil_inv, fmap_nil_inv in Hu as ->.
  apply app_eq_nil in Hqw as [Hdl Hqw]. apply fmap_nil_inv, fmap_nil_inv in Hdl as ->.
  rewrite bool_decide_eq_true_2 in Hqw, Hcs by done.
  destruct open; [done|]. rewrite !app_nil_r in *.
  exists recorded, updated, deleted. split; [|split; [done|split; [done|split]]].
  - destruct w' as [d' q' cs' e' cr']. cbn in *. subst. do 3 f_equal.
    unfold send, final_cell. cbn. f_equal. lia.
  - intros Herrs. split; [apply Hrec; by right|]. intros id Hid. split.
    + destruct (HoU Herrs id Hid) as [H | [H | H]]; [|by apply elem_of_nil in H|done].
      by apply elem_of_nil in H.
    + destruct (HoD Herrs id Hid) as [H | [H | H]]; [|by apply elem_of_nil in H|done].
      by apply elem_of_nil in H.
  - by apply Hrb.
Qed.

Lemma products_settled t userId recorded updated deleted id :
  products (settled t userId recorded updated deleted) !! id
  = if decide (id ∈ updated) then mark_sold <$> products t !! id else products t !! id.
Proof.
  cbn. induction updated as [|i updated IH]; cbn.
  - rewrite decide_False; [done | apply not_elem_of_nil].
  - destruct (decide (id = i)) as [->|Hne].
    + rewrite lookup_alter_eq, IH, (decide_True (P := _ ∈ _ :: _)) by left.
      destruct (decide _); [|done]. by destruct (products t !! i).
    + rewrite lookup_alter_ne, IH by done.
      destruct (decide (id ∈ updated)) as [Hin|Hin].
      * by rewrite decide_True by by right.
      * rewrite decide_False; [done|]. rewrite elem_of_cons. by intros [?|?].
Qed.

Lemma cart_settled t userId recorded updated deleted (entry : Z * Z) :
  entry ∈ cart (settled t userId recorded updated deleted)
  ↔ entry ∈ cart t ∧ ¬ (entry.1 = userId ∧ entry.2 ∈ deleted).
Proof.
  cbn. induction deleted as [|i deleted IH]; cbn.
  - split; [|by intros [? _]]. intros H. split; [done|]. intros [_ Hin].
    by apply elem_of_nil in Hin.
  - rewrite elem_of_difference, IH, elem_of_singleton, elem_of_cons.
    destruct entry as [u j]. cbn. split.
    + intros [[Hin Hno] Hne]. split; [done|]. intros [-> [-> | Hj]]; [done|]. by apply Hno.
    + intros [Hin Hno]. split; [split; [done|]|].
      * intros [-> Hj]. apply Hno. auto.
      * intros [= -> ->]. apply Hno. auto.
Qed.

Lemma elem_of_accepted t userId ids id :
  id ∈ (omap (accepted t userId) ids).*1 ↔ id ∈ ids ∧ purchasable t userId id.
Proof.
  rewrite list_elem_of_fmap. setoid_rewrite list_elem_of_omap. split.
  - intros ([i p] & -> & id' & Hin & Ha). cbn. unfold accepted in Ha.
    destruct (available_product t id') as [p'|] eqn:Hav; [|done].
    destruct (decide (p_user_id p' = userId)); [done|]. injection Ha as <- <-.
    apply available_product_Some in Hav as [Hp Hs]. split; [done|]. by exists p'.
  - intros [Hin (p & Hp & Hs & Hown)]. exists (id, p). split; [done|]. exists id.
    split; [done|]. unfold accepted.
    rewrite (proj2 (available_product_Some t id p)) by done. by rewrite decide_False.
Qed.

Lemma accepted_product t userId (ids : list Z) ok :
  ok ∈ omap (accepted t userId) ids → products t !! ok.1 = Some ok.2.
Proof.
  intros (id & Hin & Ha)%list_elem_of_omap. unfold accepted in Ha.
  destruct (available_product t id) as [p'|] eqn:Hav; [|done].
  destruct (decide (p_user_id p' = userId)); [done|]. injection Ha as <-.
  cbn. by apply available_product_Some in Hav as [Hp Hs].
Qed.

(** ** The buy-now route in any order *)

(** Each statement of a buy-now request is serialized or is issued by the
    callback of the one before, when nothing else is pending: the request has
    one run. *)
Lemma buy_now_one_way userId product_id payment_method w sched w' :
  queue w = [] →
  completes sched (post_buy_now userId product_id payment_method w) w' →
  w' = drain (post_buy_now userId product_id payment_method w).
Proof.
  intros Hq.
  destruct (decide (product_id = None ∨ product_id = Some 0)) as [Hid|Hid].
  { rewrite post_buy_now_no_product by done. intros Hc.
    rewrite drain_idle by done. by apply (completes_idle sched). }
  destruct product_id as [id|]; [|by destruct Hid; left].
  assert (id ≠ 0) as Hid' by (intros ->; by destruct Hid; right).
  destruct (decide (payment_method = None ∨ payment_method = Some "")) as [Hpm|Hpm].
  { rewrite post_buy_now_no_payment by done. intros Hc.
    rewrite drain_idle by done. by apply (completes_idle sched). }
  destruct payment_method as [pm|]; [|by destruct Hpm; left].
  assert (pm ≠ "") as Hpm' by (intros ->; by destruct Hpm; right).
  rewrite post_buy_now_asks, Hq by done. cbn [app].
  destruct (available_product (tabs (database w)) id) as [p|] eqn:Hav.
  2: { apply (one_way 1).
       - intros [|j] Hj; [|lia]. by cbn.
       - turn. unfold buy_now_select. rewrite Hav. by reduce. }
  destruct (decide (p_user_id p = userId)) as [Hown|Hown].
  { apply (one_way 1).
    - intros [|j] Hj; [|lia]. by cbn.
    - turn. unfold buy_now_select. rewrite Hav, decide_True by done. by reduce. }
  destruct (begin_cases (database w) (on_error w)) as [Hb | (t0 & Ht & He)].
  - apply (one_way 5).
    + intros j Hj.
      assert (j = 0 ∨ j = 1 ∨ j = 2 ∨ j = 3 ∨ j = 4)%nat as [-> | [-> | [-> | [-> | ->]]]]
        by lia.
      * by cbn.
      * turn. unfold buy_now_select. rewrite Hav, decide_False by done. reduce.
        unfold forced; cbn; auto.
      * turn. unfold buy_now_select. rewrite Hav, decide_False by done. reduce. turn.
        destruct (txn (database w)) as [t0|] eqn:Ht.
        -- destruct Hb as [?| He]; [done|]. rewrite He. reduce. unfold forced; cbn; auto.
        -- reduce. unfold forced; cbn; auto.
      * turn. unfold buy_now_select. rewrite Hav, decide_False by done. reduce. turn.
        destruct (txn (database w)) as [t0|] eqn:Ht.
        -- destruct Hb as [?| He]; [done|]. rewrite He. reduce. turn. rewrite Ht.
           unfold buy_now_insert. reduce. unfold forced; cbn; auto.
        -- reduce. turn. unfold buy_now_insert. reduce. unfold forced; cbn; auto.
      * turn. unfold buy_now_select. rewrite Hav, decide_False by done. reduce. turn.
        destruct (txn (database w)) as [t0|] eqn:Ht.
        -- destruct Hb as [?| He]; [done|]. rewrite He. reduce. turn. rewrite Ht.
           unfold buy_now_insert. reduce. turn. unfold buy_now_update. reduce.
           unfold forced; cbn; auto.
        -- reduce. turn. unfold buy_now_insert. reduce. turn. unfold buy_now_update. reduce.
           unfold forced; cbn; auto.
    + turn. unfold buy_now_select. rewrite Hav, decide_False by done. reduce. turn.
      destruct (txn (database w)) as [t0|] eqn:Ht.
      * destruct Hb as [?| He]; [done|]. rewrite He. reduce. turn. rewrite Ht.
        unfold buy_now_insert. reduce. turn. unfold buy_now_update. reduce. turn. done.
      * reduce. turn. unfold buy_now_insert. reduce. turn. unfold buy_now_update. reduce.
        turn. done.
  - apply (one_way 2).
    + intros j Hj. assert (j = 0 ∨ j = 1)%nat as [-> | ->] by lia.
      * by cbn.
      * turn. unfold buy_now_select. rewrite Hav, decide_False by done. reduce.
        unfold forced; cbn; auto.
    + turn. unfold buy_now_select. rewrite Hav, decide_False by done. reduce. turn.
      rewrite Ht, He. done.
Qed.

(** ** Deleting a product and the purchase history *)

Lemma join_purchase_fst t pu r : join_purchase t pu = Some r → r.1.1 = pu.
Proof.
  unfold join_purchase.
  destruct (products t !! pu_product_id pu), (users t !! pu_seller_id pu); try done.
  by intros [= <-].
Qed.

Lemma join_purchase_delete t id pu :
  join_purchase (set_products (delete id) t) pu
  = if decide (pu_product_id pu = id) then None else join_purchase t pu.
Proof.
  unfold join_purchase. cbn. destruct (decide (pu_product_id pu = id)) as [->|Hne].
  - by rewrite lookup_delete_eq.
  - by rewrite lookup_delete_ne.
Qed.

Lemma purchase_history_delete t id buyer :
  purchase_history (set_products (delete id) t) buyer
  = filter (λ r, pu_product_id r.1.1 ≠ id) (purchase_history t buyer).
Proof.
  unfold purchase_history. cbn [purchases set_products].
  induction (filter (λ pu, pu_buyer_id pu = buyer) (reverse (purchases t)))
    as [|pu l IH]; [done|].
  cbn [omap list_omap]. fold (omap (join_purchase (set_products (delete id) t)) l).
  fold (omap (join_purchase t) l). rewrite join_purchase_delete.
  destruct (decide (pu_product_id pu = id)) as [Heq|Hne].
  - rewrite IH. destruct (join_purchase t pu) as [r|] eqn:Hr; [|done].
    rewrite filter_cons_False; [done|].
    rewrite (join_purchase_fst _ _ _ Hr). by intros ?.
  - destruct (join_purchase t pu) as [r|] eqn:Hr; [|done].
    rewrite filter_cons_True by by rewrite (join_purchase_fst _ _ _ Hr).
    by rewrite IH.
Qed.

Lemma get_purchases_answers userId w :
  queue w = [] →
  drain (get_purchases userId w)
  = answered {| status_code := 200;
                body := JArr (history_json
                              <$> purchase_history (tabs (database w)) userId) |} w.
Proof.
  intros Hq. unfold get_purchases, accept, db_run, set_queue, set_cells, answered.
  cbn [queue cells database on_error crashed]. rewrite Hq. cbn [app].
  apply (drain_to 1); [|done]. turn. unfold purchases_all. reduce.
  rewrite alter_last. by destruct (database w).
Qed.

(** ** Sold products and purchase rows *)

Lemma sound_closed t : consistent t → sound {| tabs := t; txn := None |}.
Proof. by split. Qed.

Lemma consistent_sold userId id p t :
  consistent t → products t !! id = Some p →
  consistent (set_products (alter mark_sold id)
                           (add_purchase userId id (p_user_id p) (p_price p) t)).
Proof.
  intros Hc Hp i p'. unfold purchased. cbn.
  setoid_rewrite elem_of_app. setoid_rewrite list_elem_of_singleton.
  destruct (decide (i = id)) as [->|Hne].
  - rewrite lookup_alter_eq, Hp. intros [= <-]. split; [|done].
    intros _. eexists. split; [by right|]. done.
  - rewrite lookup_alter_ne by done. intros Hp'. rewrite (Hc i p' Hp'). split.
    + intros (pu & Hpu & Hi). eauto.
    + intros (pu & [Hpu | ->] & Hi); [by exists pu | done].
Qed.

Lemma buy_now_keeps_sound userId product_id payment_method w :
  queue w = [] → sound (database w) →
  sound (database (drain (post_buy_now userId product_id payment_method w))).
Proof.
  intros Hq Hs.
  destruct (decide (product_id = None ∨ product_id = Some 0)) as [Hid|Hid].
  { rewrite post_buy_now_no_product by done. by rewrite drain_idle. }
  destruct product_id as [id|]; [|by destruct Hid; left].
  assert (id ≠ 0) as Hid' by (intros ->; by destruct Hid; right).
  destruct (decide (payment_method = None ∨ payment_method = Some "")) as [Hpm|Hpm].
  { rewrite post_buy_now_no_payment by done. by rewrite drain_idle. }
  destruct payment_method as [pm|]; [|by destruct Hpm; left].
  assert (pm ≠ "") as Hpm' by (intros ->; by destruct Hpm; right).
  destruct (available_product (tabs (database w)) id) as [p|] eqn:Hav.
  2: { by rewrite buy_now_unavailable. }
  destruct (decide (p_user_id p = userId)) as [Hown|Hown].
  { by rewrite (buy_now_own userId id pm p). }
  destruct (begin_cases (database w) (on_error w)) as [Hb | (t0 & Ht & He)].
  - rewrite (buy_now_sells userId id pm p) by done. cbn [database].
    apply sound_closed, consistent_sold; [apply (proj1 Hs)|].
    by destruct (proj1 (available_product_Some _ _ _) Hav).
  - by rewrite (buy_now_crashes userId id pm p t0).
Qed.

Lemma shop_consistent : consistent shop.
Proof.
  intros id p Hp. unfold shop in Hp. cbn in Hp.
  apply lookup_insert_Some in Hp as [[<- <-] | [_ Hp]].
  { split; [done|]. intros (pu & Hpu & Hid).
    apply list_elem_of_singleton in Hpu as ->. done. }
  apply lookup_insert_Some in Hp as [[<- <-] | [_ Hp]].
  { split; [|done]. intros _. eexists. split; [apply list_elem_of_singleton|]; done. }
  apply lookup_singleton_Some in Hp as [<- <-].
  split; [done|]. intros (pu & Hpu & Hid).
  apply list_elem_of_singleton in Hpu as ->. done.
Qed.

Lemma shop_lamp_purchasable : Forall (purchasable shop 2) [10].
Proof. repeat constructor. exists lamp. by vm_compute. Qed.

(** ** All-or-nothing batches (C1) *)


(** X25. With no transaction left open before, a batch of safe integers in
    which at least one id passes and at least one does not is answered 400
    with the collected errors as details, whatever the order in which its
    statements run. The transaction is closed and the rows of the INSERTs are
    rolled back. The UPDATEs and DELETEs that run after the ROLLBACK keep
    their effect: a product that passed is as it was or marked sold, a cart
    entry of the buyer for such a product is there or gone, and nothing else
    changes. *)
Theorem purchase_mixed_batch_rolls_back userId ids w :
  queue w = [] → txn (database w) = None → Forall safe_integer ids →
  let t := tabs (database w) in
  let errs := omap (refused t userId) ids in
  omap (accepted t userId) ids ≠ [] → errs ≠ [] →
  let w0 := post_purchase userId (js_array ids) w in
  (∃ sched w', completes sched w0 w')
  ∧ ∀ sched w', completes sched w0 w' →
      sent (the_cell (length (cells w)) w') = [purchase_failed errs]
      ∧ crashed w' = crashed w
      ∧ txn (database w') = None
      ∧ purchases (tabs (database w')) = purchases t
      ∧ (∀ id, products (tabs (database w')) !! id = products t !! id
               ∨ (id ∈ ids ∧ purchasable t userId id
                  ∧ products (tabs (database w')) !! id = mark_sold <$> products t !! id))
      ∧ (∀ entry, entry ∈ cart (tabs (database w')) → entry ∈ cart t)
      ∧ (∀ entry, entry ∈ cart t → entry ∉ cart (tabs (database w')) →
                  entry.1 = userId ∧ entry.2 ∈ ids ∧ purchasable t userId entry.2).
Proof.
  intros Hq Ht _ t errs Hoks Herrs w0. split.
  { destruct (drain_completes w0) as [sched Hc]. by exists sched, (drain w0). }
  intros sched w' Hc.
  destruct (batch_any_order userId ids w sched w' Hq Ht Hoks Hc)
    as (recorded & updated & deleted & -> & HU & HD & _ & Hrb).
  fold t errs in Hrb |- *. rewrite (Hrb Herrs). rewrite the_cell_new.
  cbn [database tabs txn crashed]. unfold verdict, final_cell. cbn [errors].
  rewrite decide_True by (destruct errs; [done | cbn; lia]).
  cbn [snd send sent app]. split; [done|]. split; [done|]. split; [done|].
  split; [cbn; apply app_nil_r|]. split; [|split].
  - intros id. rewrite products_settled. destruct (decide (id ∈ updated)) as [Hin|Hin].
    + right. apply (proj1 (Forall_forall _ _) HU), elem_of_accepted in Hin as [? ?]. done.
    + by left.
  - intros entry. rewrite cart_settled. by intros [? _].
  - intros entry Hin Hout. rewrite cart_settled in Hout.
    destruct (decide (entry.1 = userId ∧ entry.2 ∈ deleted)) as [[Hu Hd]|Hno].
    + apply (proj1 (Forall_forall _ _) HD), elem_of_accepted in Hd as [? ?]. done.
    + by destruct Hout.
Qed.

Lemma purchase_mixed_batch_rolls_back_witness :
  let w0 := post_purchase 2 (js_array [10; 11; 12]) (open_shop uncaught) in
  let w' := default w0 (run_along [0; 0; 0; 0; 0; 2; 0; 0]%nat w0) in
  sent (the_cell 0 w')
  = [purchase_failed ["Product 11 not found or unavailable";
                      "Cannot purchase your own product 12"]]
  ∧ crashed w' = false
  ∧ txn (database w') = None
  ∧ purchases (tabs (database w')) = purchases shop
  ∧ (∀ id, products (tabs (database w')) !! id = products shop !! id
           ∨ (id ∈ [10; 11; 12] ∧ purchasable shop 2 id
              ∧ products (tabs (database w')) !! id = mark_sold <$> products shop !! id))
  ∧ (∀ entry, entry ∈ cart (tabs (database w')) → entry ∈ cart shop)
  ∧ (∀ entry, entry ∈ cart shop → entry ∉ cart (tabs (database w')) →
              entry.1 = 2 ∧ entry.2 ∈ [10; 11; 12] ∧ purchasable shop 2 entry.2).
Proof.
  destruct (purchase_mixed_batch_rolls_back 2 [10; 11; 12] (open_shop uncaught)) as [_ H];
    [reflexivity | reflexivity | repeat constructor
    | vm_compute; discriminate | vm_compute; discriminate |].
  apply (H [0; 0; 0; 0; 0; 2; 0; 0]%nat). split; vm_compute; reflexivity.
Defined.

(** C1, failing input: Carol orders the desk, which is already sold. The error
    is collected, but no INSERT callback ever runs to look at the count: the
    request is never answered (no 400, no details) and the transaction that
    BEGIN opened is neither rolled back nor committed. *)
Theorem purchase_of_sold_desk_gets_no_answer :
  let w := drain (post_purchase 3 (js_array [11]) (open_shop uncaught)) in
  queue w = []
  ∧ errors (the_cell 0 w) = ["Product 11 not found or unavailable"]
  ∧ sent (the_cell 0 w) = []
  ∧ txn (database w) = Some shop
  ∧ crashed w = false.
Proof. vm_compute. done. Qed.

(** ** One check, one mutation (C2) *)

(** C2, counterexample: Bob's and Carol's buy-now requests for the lamp arrive
    one after the other, before the loop takes a turn. Both SELECTs find the
    lamp available, in whichever order they run; the BEGIN of the request
    whose SELECT ran second then fails inside the transaction of the other,
    and the process ends with neither request answered. The UPDATE itself is
    not guarded by the status: on the desk, already sold, it changes one
    row. *)
Lemma overlapping_buy_now_is_not_one_sale :
  let arrive :=
    post_buy_now 3 (Some 10) (Some "card")
      (post_buy_now 2 (Some 10) (Some "paypal") (open_shop uncaught)) in
  (∃ sched w', completes sched arrive w')
  ∧ (∀ sched w', completes sched arrive w' →
       crashed w' = true ∧ sent (the_cell 0 w') = [] ∧ sent (the_cell 1 w') = [])
  ∧ (exec (update_sold 11) {| tabs := shop; txn := None |}).2 = ran 1 1.
Proof.
  intros arrive. split; [|split; [|by vm_compute]].
  { destruct (drain_completes arrive) as [sched Hc]. by exists sched, (drain arrive). }
  assert (∀ w1 sched w', step_at 0 arrive = Some w1 ∨ step_at 1 arrive = Some w1 →
            completes sched w1 w' →
            crashed w' = true ∧ sent (the_cell 0 w') = [] ∧ sent (the_cell 1 w') = [])
    as Hrest.
  { intros w1 sched w' Hw1 Hc.
    assert (w' = drain w1) as ->.
    { apply (one_way 4 w1 sched); [|by destruct Hw1 as [H|H]; vm_compute in H;
                                     injection H as <-; vm_compute|done].
      intros j Hj.
      assert (j = 0 ∨ j = 1 ∨ j = 2 ∨ j = 3)%nat as [-> | [-> | [-> | ->]]] by lia;
        destruct Hw1 as [H|H]; vm_compute in H; injection H as <-; vm_compute; auto. }
    destruct Hw1 as [H|H]; vm_compute in H; injection H as <-; by vm_compute. }
  intros sched w' [Hrun Hq]. destruct sched as [|i sched].
  - injection Hrun as <-. by vm_compute in Hq.
  - cbn [run_along] in Hrun. destruct (step_at i arrive) as [w1|] eqn:Hi; [|done].
    cbn in Hrun. apply (Hrest w1 sched w'); [|done].
    destruct i as [|[|i]]; [by left | by right |]. by vm_compute in Hi.
Qed.

(** C2, amended: the check is a SELECT among the available products and the
    mutation a later UPDATE guarded by the product id alone, which changes
    one row whatever the status of the product. On an idle connection with
    no transaction left open, when a buy-now request (with its product id and
    payment method) of a user other than the owner of an available product
    has completed and a second such request for the same product then
    arrives, from any user, the first was answered 200 and the second is
    answered 404 "Product not found or unavailable"; it leaves the database
    as the first left it, with one purchase row more than before the two,
    and the process as it was. *)
Theorem buy_now_in_turn_sells_once user1 user2 id pm1 pm2 p w :
  queue w = [] → id ≠ 0 → pm1 ≠ "" → pm2 ≠ "" →
  txn (database w) = None →
  products (tabs (database w)) !! id = Some p → p_status p = "available" →
  p_user_id p ≠ user1 →
  let first := length (cells w) in
  let w0 := post_buy_now user1 (Some id) (Some pm1) w in
  (∀ d, (exec (select_available id) d).2 = got (available_product (tabs d) id))
  ∧ (∀ d, is_Some (products (tabs d) !! id) →
          (exec (update_sold id) d).2 = ran (purchases_seq (tabs d)) 1)
  ∧ (∃ sched1 w1 sched2 w2,
       completes sched1 w0 w1
       ∧ completes sched2 (post_buy_now user2 (Some id) (Some pm2) w1) w2)
  ∧ ∀ sched1 w1 sched2 w2,
      completes sched1 w0 w1 →
      completes sched2 (post_buy_now user2 (Some id) (Some pm2) w1) w2 →
      status_code <$> sent (the_cell first w2) = [200]
      ∧ sent (the_cell (S first) w2) = [failure 404 "Product not found or unavailable"]
      ∧ database w2 = database w1
      ∧ crashed w2 = crashed w
      ∧ length (purchases (tabs (database w2)))
        = S (length (purchases (tabs (database w)))).
Proof.
  intros Hq Hid Hpm1 Hpm2 Ht Hp Hs Hown first w0.
  split; [done|]. split.
  { intros d [q Hq']. cbn. by rewrite Hq'. }
  assert (∀ sched1 w1, completes sched1 w0 w1 → w1 = drain w0) as H1
    by (intros; by eapply buy_now_one_way).
  assert (queue (drain w0) = []) as Hq1 by apply drain_quiet.
  assert (∀ sched2 w2,
            completes sched2 (post_buy_now user2 (Some id) (Some pm2) (drain w0)) w2 →
            w2 = drain (post_buy_now user2 (Some id) (Some pm2) (drain w0))) as H2
    by (intros; by eapply buy_now_one_way).
  split.
  { destruct (drain_completes w0) as [sched1 Hc1].
    destruct (drain_completes (post_buy_now user2 (Some id) (Some pm2) (drain w0)))
      as [sched2 Hc2].
    by exists sched1, (drain w0), sched2, (drain (post_buy_now user2 (Some id) (Some pm2)
                                              (drain w0))). }
  intros sched1 w1 sched2 w2 Hc1 Hc2.
  rewrite (H1 _ _ Hc1) in Hc2 |- *. rewrite (H2 _ _ Hc2). unfold w0, first.
  rewrite (buy_now_sells user1 id pm1 p)
    by (done || by left || by apply available_product_Some).
  rewrite buy_now_unavailable; [|done..|].
  - cbn [database tabs purchases add_purchase set_products cells crashed].
    unfold the_cell. cbn [cells].
    rewrite (list_lookup_middle _ [] _ (S (length (cells w))))
      by (rewrite length_app; cbn; lia).
    rewrite lookup_app_l by (rewrite length_app; cbn; lia).
    rewrite list_lookup_middle by done. cbn. repeat split.
    rewrite length_app. cbn. lia.
  - cbn [database tabs]. apply (sold_not_available _ _ (mark_sold p)); [|done].
    cbn. by rewrite lookup_alter_eq, Hp.
Qed.

Lemma buy_now_in_turn_sells_once_witness :
  let w1 := drain (post_buy_now 2 (Some 10) (Some "paypal") (open_shop uncaught)) in
  let w2 := drain (post_buy_now 3 (Some 10) (Some "card") w1) in
  status_code <$> sent (the_cell 0 w2) = [200]
  ∧ sent (the_cell 1 w2) = [failure 404 "Product not found or unavailable"]
  ∧ database w2 = database w1
  ∧ crashed w2 = false
  ∧ length (purchases (tabs (database w2))) = 2%nat.
Proof.
  destruct (buy_now_in_turn_sells_once 2 3 10 "paypal" "card" lamp (open_shop uncaught))
    as (_ & _ & _ & H);
    [reflexivity | discriminate | discriminate | discriminate | reflexivity
    | reflexivity | reflexivity | discriminate |].
  apply (H (replicate 5 0%nat) _ [0%nat]); split; vm_compute; reflexivity.
Defined.

(** ** Sold exactly when purchased (C3) *)

(** C3, failing input: Bob orders the lamp and the desk, which is already
    sold. The SELECT of the desk collects an error; the INSERT callback of the
    lamp then issues the UPDATE, the DELETE and, the count being complete,
    the ROLLBACK, all three outside [db.serialize]. When the ROLLBACK runs
    first, the UPDATE runs after the transaction is closed and stays: the
    request is answered 400 and has completed, the lamp is sold, and no
    purchase row refers to it. Before the request every product was sold
    exactly when a purchase row referred to it. *)
Theorem failed_batch_can_leave_the_lamp_sold_and_unpurchased :
  let w0 := post_purchase 2 (js_array [10; 11]) (open_shop uncaught) in
  let sched := [0; 0; 0; 0; 2; 0; 0]%nat in
  let w' := default w0 (run_along sched w0) in
  consistent shop
  ∧ completes sched w0 w'
  ∧ sent (the_cell 0 w') = [purchase_failed ["Product 11 not found or unavailable"]]
  ∧ status_of 10 w' = Some "sold"
  ∧ purchases_of 10 w' = []
  ∧ txn (database w') = None
  ∧ crashed w' = false
  ∧ ¬ consistent (tabs (database w')).
Proof.
  intros w0 sched w'. split; [apply shop_consistent|].
  split; [split; vm_compute; reflexivity|].
  assert (status_of 10 w' = Some "sold") as Hsold by (vm_compute; reflexivity).
  assert (purchases_of 10 w' = []) as Hnone by (vm_compute; reflexivity).
  split; [vm_compute; reflexivity|]. split; [done|]. split; [done|].
  split; [vm_compute; reflexivity|]. split; [vm_compute; reflexivity|].
  intros Hc. unfold status_of in Hsold.
  destruct (products (tabs (database w')) !! 10) as [p|] eqn:Hp; [|done].
  injection Hsold as Hs. apply (Hc 10 p Hp) in Hs as (pu & Hpu & Hid).
  assert (pu ∈ purchases_of 10 w') as Hin.
  { unfold purchases_of. apply list_elem_of_filter. done. }
  rewrite Hnone in Hin. by apply elem_of_nil in Hin.
Qed.

(** X30. Buy-now keeps sold and purchased together: when a buy-now request
    that arrived on an idle connection has completed, whatever it was asked
    and whatever it answered, every product is sold exactly when a purchase
    row refers to it, provided this was so when the request arrived (and of
    the tables a pending ROLLBACK would restore). *)
Theorem buy_now_keeps_sold_and_purchased_together userId product_id payment_method w :
  queue w = [] → sound (database w) →
  let w0 := post_buy_now userId product_id payment_method w in
  (∃ sched w', completes sched w0 w')
  ∧ ∀ sched w', completes sched w0 w' → sound (database w').
Proof.
  intros Hq Hs w0. split.
  { destruct (drain_completes w0) as [sched Hc]. by exists sched, (drain w0). }
  intros sched w' Hc. rewrite (buy_now_one_way _ _ _ _ _ _ Hq Hc).
  by apply buy_now_keeps_sound.
Qed.

Lemma buy_now_keeps_sold_and_purchased_together_witness :
  sound (database (drain (post_buy_now 2 (Some 10) (Some "paypal") (open_shop uncaught)))).
Proof.
  destruct (buy_now_keeps_sold_and_purchased_together 2 (Some 10) (Some "paypal")
              (open_shop uncaught)) as [_ H];
    [reflexivity | apply sound_closed, shop_consistent |].
  apply (H (replicate 5 0%nat)). split; vm_compute; reflexivity.
Defined.

(** ** Own products (C4) *)

(** C4, counterexample: Alice asks to buy her own desk, which is sold. The
    SELECT only looks among the available products, so she is told 404
    "Product not found or unavailable" and not that the desk is her own. *)
Lemma buy_now_of_own_sold_desk_is_404 :
  let w := drain (post_buy_now 1 (Some 11) (Some "card") (open_shop uncaught)) in
  p_user_id <$> products shop !! 11 = Some 1
  ∧ sent (the_cell 0 w) = [failure 404 "Product not found or unavailable"]
  ∧ sent (the_cell 0 w) ≠ [failure 400 "Cannot purchase your own product"].
Proof. vm_compute. done. Qed.

(** C4, amended: buy-now of an available product by its owner is answered 400
    "Cannot purchase your own product"; and whatever the status of the
    product, neither buy-now nor a purchase of [[productId]] by the owner
    creates a purchase row or changes any table. *)
Theorem own_product_is_never_bought userId id pm p w :
  queue w = [] → id ≠ 0 → pm ≠ "" →
  products (tabs (database w)) !! id = Some p → p_user_id p = userId →
  let w1 := drain (post_buy_now userId (Some id) (Some pm) w) in
  let w2 := drain (post_purchase userId (js_array [id]) w) in
  (p_status p = "available" →
   sent (the_cell (length (cells w)) w1) = [failure 400 "Cannot purchase your own product"])
  ∧ database w1 = database w
  ∧ tabs (database w2) = tabs (database w)
  ∧ purchases (tabs (database w2)) = purchases (tabs (database w)).
Proof.
  intros Hq Hid Hpm Hp Hown w1 w2.
  assert (tabs (database w2) = tabs (database w)) as Htabs.
  { unfold w2. destruct (txn (database w)) as [t0|] eqn:Ht.
    - destruct (on_error w) eqn:He.
      + by rewrite (purchase_crashes userId [id] t0).
      + rewrite purchase_none_accepted; [cbn [database]; by rewrite tabs_begun|done|done|by right|].
        cbn. by rewrite (own_not_accepted _ _ _ p).
    - rewrite purchase_none_accepted; [cbn [database]; by rewrite tabs_begun|done|done|by left|].
      cbn. by rewrite (own_not_accepted _ _ _ p). }
  unfold w1. destruct (available_product (tabs (database w)) id) as [p'|] eqn:Hav.
  - pose proof Hav as [Hp' _]%available_product_Some.
    assert (p' = p) as -> by congruence.
    rewrite (buy_now_own userId id pm p) by done. rewrite the_cell_new.
    by rewrite Htabs.
  - rewrite buy_now_unavailable by done. rewrite Htabs. repeat split; try done.
    intros Hs. exfalso. by apply (proj1 (available_product_None _ _) Hav p).
Qed.

Lemma own_product_is_never_bought_witness :
  let w1 := drain (post_buy_now 2 (Some 12) (Some "card") (open_shop uncaught)) in
  let w2 := drain (post_purchase 2 (js_array [12]) (open_shop uncaught)) in
  (p_status bike = "available" →
   sent (the_cell 0 w1) = [failure 400 "Cannot purchase your own product"])
  ∧ database w1 = database (open_shop uncaught)
  ∧ tabs (database w2) = shop
  ∧ purchases (tabs (database w2)) = purchases shop.
Proof.
  apply (own_product_is_never_bought 2 12 "card" bike (open_shop uncaught));
    [reflexivity | discriminate | discriminate | reflexivity | reflexivity].
Defined.

(** ** Buy now (C5) *)

(** C5: buy-now of an available product that is not the buyer's own marks
    the product sold, records one purchase whose seller is the product's
    owner and whose price is the product's price, and answers with the id of
    that purchase, the product as it was read, the payment method as given and
    the product's price as [total_amount]. *)
Theorem buy_now_sells_at_the_listed_price userId id pm p w :
  queue w = [] → id ≠ 0 → pm ≠ "" →
  txn (database w) = None ∨ on_error w = unheard →
  products (tabs (database w)) !! id = Some p → p_status p = "available" →
  p_user_id p ≠ userId →
  let t := tabs (database w) in
  let w' := drain (post_buy_now userId (Some id) (Some pm) w) in
  let pu := {| pu_id := purchases_seq t + 1; pu_buyer_id := userId;
               pu_product_id := id; pu_seller_id := p_user_id p;
               pu_price := p_price p |} in
  status_of id w' = Some "sold"
  ∧ purchases (tabs (database w')) = purchases t ++ [pu]
  ∧ txn (database w') = None
  ∧ sent (the_cell (length (cells w)) w')
    = [ {| status_code := 200;
           body := JObj [("message", JStr "Purchase successful! Your item has been booked.");
                         ("purchase_id", JNum (pu_id pu));
                         ("product", product_json id p);
                         ("payment_method", JStr pm);
                         ("total_amount", JNum (p_price p))] |} ].
Proof.
  intros Hq Hid Hpm Hb Hp Hs Hown t w' pu. unfold w'.
  rewrite (buy_now_sells userId id pm p) by (done || by apply available_product_Some).
  rewrite the_cell_new. unfold status_of, pu, t.
  cbn [database tabs products set_products add_purchase purchases txn pu_id].
  by rewrite lookup_alter_eq, Hp.
Qed.

Lemma buy_now_sells_at_the_listed_price_witness :
  let w' := drain (post_buy_now 2 (Some 10) (Some "paypal") (open_shop uncaught)) in
  status_of 10 w' = Some "sold"
  ∧ purchases (tabs (database w'))
    = purchases shop ++ [ {| pu_id := 2; pu_buyer_id := 2; pu_product_id := 10;
                             pu_seller_id := 1; pu_price := 1000 |} ]
  ∧ txn (database w') = None
  ∧ sent (the_cell 0 w') = [buy_now_sent 2 10 lamp "paypal"].
Proof.
  apply (buy_now_sells_at_the_listed_price 2 10 "paypal" lamp (open_shop uncaught));
    [reflexivity | discriminate | discriminate | left; reflexivity
    | reflexivity | reflexivity | discriminate].
Defined.

(** ** Carts (C6) *)

(** C6, counterexample: Bob buys the lamp. His cart entry goes, Carol's entry
    for the same lamp stays although the lamp is now sold. *)
Lemma sold_lamp_stays_in_carols_cart :
  let w := drain (post_purchase 2 (js_array [10]) (open_shop uncaught)) in
  sent (the_cell 0 w) = [purchase_completed 1]
  ∧ status_of 10 w = Some "sold"
  ∧ elements (cart (tabs (database w))) = [(3, 10)].
Proof. vm_compute. done. Qed.

(** The buy-now route issues no DELETE on the cart at all: after Bob's buy-now
    of the lamp his own cart entry is still there. *)
Lemma buy_now_keeps_the_buyers_cart_entry :
  let w := drain (post_buy_now 2 (Some 10) (Some "paypal") (open_shop uncaught)) in
  status_code <$> sent (the_cell 0 w) = [200]
  ∧ status_of 10 w = Some "sold"
  ∧ cart (tabs (database w)) = cart shop.
Proof. vm_compute. done. Qed.

(** C6, amended: a purchase batch in which every product is available and not
    the buyer's own is answered as completed, every product of the batch is
    then sold, and from the cart exactly the buyer's own entries for the
    products of the batch are deleted; the entries of other users stay,
    whether or not they refer to a product that is now sold. *)
Theorem purchase_clears_the_buyers_cart_entries userId ids w :
  queue w = [] → ids ≠ [] →
  txn (database w) = None ∨ on_error w = unheard →
  Forall (purchasable (tabs (database w)) userId) ids →
  let w' := drain (post_purchase userId (js_array ids) w) in
  sent (the_cell (length (cells w)) w') = [purchase_completed (length ids)]
  ∧ (∀ id, id ∈ ids → status_of id w' = Some "sold")
  ∧ (∀ user_id product_id,
       (user_id, product_id) ∈ cart (tabs (database w'))
       ↔ (user_id, product_id) ∈ cart (tabs (database w))
         ∧ ¬ (user_id = userId ∧ product_id ∈ ids)).
Proof.
  intros Hq Hids Hb Hall w'.
  destruct (all_accepted _ _ _ Hall) as [Hoks Herr].
  assert (length (omap (accepted (tabs (database w)) userId) ids) = length ids) as Hlen.
  { by rewrite <- Hoks at 2; rewrite length_fmap. }
  unfold w'. rewrite purchase_some_accepted; [|done|done|].
  2: { intros Hnil. rewrite Hnil in Hlen. by destruct ids. }
  rewrite the_cell_new, Herr, Hlen. unfold verdict. cbn [errors length].
  rewrite decide_False by lia. cbn [fst snd send sent completedPurchases app].
  erewrite exec_commit by apply txn_settled. cbn [database tabs].
  split; [done|]. split.
  - intros id Hid. unfold status_of. cbn [database tabs].
    rewrite products_settlements, Hoks, decide_True by done.
    rewrite products_record_purchases, tabs_begun.
    apply (proj1 (Forall_forall _ _) Hall) in Hid as (p & -> & _). done.
  - intros u i. rewrite (cart_settlements _ _ _ (u, i)), Hoks.
    by rewrite cart_record_purchases, tabs_begun.
Qed.

Lemma purchase_clears_the_buyers_cart_entries_witness :
  let w' := drain (post_purchase 2 (js_array [10]) (open_shop uncaught)) in
  sent (the_cell 0 w') = [purchase_completed 1]
  ∧ (∀ id, id ∈ [10] → status_of id w' = Some "sold")
  ∧ (∀ user_id product_id,
       (user_id, product_id) ∈ cart (tabs (database w'))
       ↔ (user_id, product_id) ∈ cart shop ∧ ¬ (user_id = 2 ∧ product_id ∈ [10])).
Proof.
  apply (purchase_clears_the_buyers_cart_entries 2 [10] (open_shop uncaught));
    [reflexivity | discriminate | left; reflexivity | exact shop_lamp_purchasable].
Defined.

(** ** Sold products (C7) *)

(** C7, counterexample: Bob asks to buy the sold desk and is answered with
    status 404, not 400. *)
Lemma buy_now_of_sold_desk_is_404 :
  let w := drain (post_buy_now 2 (Some 11) (Some "card") (open_shop uncaught)) in
  status_of 11 (open_shop uncaught) = Some "sold"
  ∧ status_code <$> sent (the_cell 0 w) = [404].
Proof. vm_compute. done. Qed.

(** C7, amended: a buy-now request (with its product id and payment method)
    for a product whose status is sold is answered 404 "Product not found or
    unavailable", and nothing in the database changes. *)
Theorem buy_now_of_sold_product_is_404 userId id pm p w :
  queue w = [] → id ≠ 0 → pm ≠ "" →
  products (tabs (database w)) !! id = Some p → p_status p = "sold" →
  let w' := drain (post_buy_now userId (Some id) (Some pm) w) in
  sent (the_cell (length (cells w)) w')
  = [failure 404 "Product not found or unavailable"]
  ∧ database w' = database w
  ∧ crashed w' = crashed w.
Proof.
  intros Hq Hid Hpm Hp Hs w'. unfold w'.
  rewrite buy_now_unavailable by eauto using sold_not_available.
  by rewrite the_cell_new.
Qed.

Lemma buy_now_of_sold_product_is_404_witness :
  let w' := drain (post_buy_now 2 (Some 11) (Some "card") (open_shop uncaught)) in
  sent (the_cell 0 w') = [failure 404 "Product not found or unavailable"]
  ∧ database w' = database (open_shop uncaught)
  ∧ crashed w' = false.
Proof.
  apply (buy_now_of_sold_product_is_404 2 11 "card" desk (open_shop uncaught));
    [reflexivity | discriminate | discriminate | reflexivity | reflexivity].
Defined.

(** ** Malformed requests (C8) *)

(** C8, counterexample: POST /api/purchase with an empty [product_ids] is
    refused with a body that has an [error] member and no [details]. *)
Lemma empty_product_ids_body_has_no_details :
  let w := post_purchase 2 (js_array []) (open_shop uncaught) in
  (λ r, (status_code r, member "error" (body r), member "details" (body r)))
    <$> sent (the_cell 0 w)
  = [(400, Some (JStr "Product IDs array is required"), None)].
Proof. vm_compute. done. Qed.

(** C8, amended: a POST /api/purchase whose [product_ids] is missing, not an
    array or empty, and a POST /api/buy-now whose [product_id] or
    [payment_method] is missing, are answered 400 by the handler itself, before
    any statement is issued: the database, the queue and the process are as
    they were. The body of each of these answers has the single member
    [error]; [details] only comes with the failure of a batch. *)
Theorem malformed_requests_are_refused_at_once userId w :
  (∀ v, v = js_undefined ∨ isArray v = false ∨ v = js_array [] →
        post_purchase userId v w
        = answered {| status_code := 400;
                      body := JObj [("error", JStr "Product IDs array is required")] |} w)
  ∧ (∀ payment_method,
        post_buy_now userId None payment_method w
        = answered {| status_code := 400;
                      body := JObj [("error", JStr "Product ID is required")] |} w)
  ∧ (∀ id, id ≠ 0 →
        post_buy_now userId (Some id) None w
        = answered {| status_code := 400;
                      body := JObj [("error", JStr "Payment method is required")] |} w)
  ∧ (∀ r, database (answered r w) = database w
          ∧ queue (answered r w) = queue w
          ∧ crashed (answered r w) = crashed w
          ∧ sent (the_cell (length (cells w)) (answered r w)) = [r]).
Proof.
  repeat split.
  - intros v Hv. by apply post_purchase_malformed.
  - intros pm. apply post_buy_now_no_product. by left.
  - intros id Hid. apply post_buy_now_no_payment; [done | by left].
  - unfold answered. by rewrite the_cell_new.
Qed.

Lemma malformed_requests_are_refused_at_once_witness :
  post_purchase 2 (js_string "10") (open_shop uncaught)
  = answered (failure 400 "Product IDs array is required") (open_shop uncaught)
  ∧ post_buy_now 2 (Some 10) None (open_shop uncaught)
    = answered (failure 400 "Payment method is required") (open_shop uncaught).
Proof.
  destruct (malformed_requests_are_refused_at_once 2 (open_shop uncaught))
    as (Hids & _ & Hpm & _).
  split; [apply Hids; right; left; reflexivity | apply Hpm; discriminate].
Defined.

(** ** No double sale (C9) *)

(** X27. An id that passes and is listed twice in a batch is sold twice, whatever
    the shop: the second SELECT runs before the first UPDATE. *)
Lemma purchase_repeated_id_sells_twice userId id p w :
  queue w = [] →
  txn (database w) = None ∨ on_error w = unheard →
  products (tabs (database w)) !! id = Some p → p_status p = "available" →
  p_user_id p ≠ userId →
  let t := tabs (database w) in
  let w' := drain (post_purchase userId (js_array [id; id]) w) in
  let row k := {| pu_id := purchases_seq t + k; pu_buyer_id := userId;
                  pu_product_id := id; pu_seller_id := p_user_id p;
                  pu_price := p_price p |} in
  sent (the_cell (length (cells w)) w') = [purchase_completed 2]
  ∧ purchases (tabs (database w')) = purchases t ++ [row 1; row 2].
Proof.
  intros Hq Hb Hp Hs Hown t w' row.
  assert (Forall (purchasable t userId) [id; id]) as Hall
    by (repeat constructor; by exists p).
  destruct (all_accepted _ _ _ Hall) as [_ Herr].
  assert (omap (accepted t userId) [id; id] = [(id, p); (id, p)]) as Hoks.
  { cbn. unfold accepted.
    rewrite (proj2 (available_product_Some t id p)) by done.
    by rewrite decide_False. }
  unfold w'. rewrite purchase_some_accepted; [|done|done|by fold t; rewrite Hoks].
  rewrite the_cell_new. cbn [database]. fold t. rewrite Herr, Hoks.
  unfold verdict. cbn [errors length]. rewrite decide_False by lia.
  cbn [fst snd send sent completedPurchases app].
  erewrite exec_commit;
    [|rewrite <- Hoks; unfold t; apply txn_settled].
  split; [done|]. cbn [tabs]. rewrite purchases_settlements.
  rewrite !record_purchases_cons. cbn. rewrite tabs_begun. fold t.
  rewrite <- app_assoc. cbn. unfold row.
  by replace (purchases_seq t + 1 + 1) with (purchases_seq t + 2) by lia.
Qed.

(** C9, failing input: Bob orders the lamp twice in one batch. Both SELECTs
    run before the first UPDATE, both find the lamp available, and the batch
    commits two purchase rows for the one lamp. *)
Theorem purchase_of_lamp_twice_sells_it_twice :
  let w := drain (post_purchase 2 (js_array [10; 10]) (open_shop uncaught)) in
  sent (the_cell 0 w) = [purchase_completed 2]
  ∧ pu_id <$> purchases_of 10 w = [2; 3]
  ∧ status_of 10 w = Some "sold"
  ∧ txn (database w) = None.
Proof. vm_compute. done. Qed.

(** ** Deleting a sold product (C10) *)

(** C10: DELETE /api/products/:id by the owner removes the product whatever
    its status (no hypothesis on the status below: a sold product goes too);
    the purchase rows stay as they are; and since the history joins each
    purchase to its product, the rows of the deleted product are no longer
    listed by GET /api/purchases, for any buyer. *)
Theorem owner_delete_ignores_status_and_hides_purchases userId id p w :
  queue w = [] →
  products (tabs (database w)) !! id = Some p → p_user_id p = userId →
  let w' := drain (delete_products userId id w) in
  sent (the_cell (length (cells w)) w')
  = [ {| status_code := 200;
         body := JObj [("message", JStr "Product deleted successfully")] |} ]
  ∧ products (tabs (database w')) !! id = None
  ∧ purchases (tabs (database w')) = purchases (tabs (database w))
  ∧ ∀ buyer,
      let listed := filter (λ r, pu_product_id r.1.1 ≠ id)
                           (purchase_history (tabs (database w)) buyer) in
      purchase_history (tabs (database w')) buyer = listed
      ∧ sent (the_cell (S (length (cells w))) (drain (get_purchases buyer w')))
        = [ {| status_code := 200; body := JArr (history_json <$> listed) |} ].
Proof.
  intros Hq Hp Hown w'. unfold w'. rewrite (delete_products_owned userId id p) by done.
  rewrite the_cell_new. cbn [database tabs products purchases set_products].
  rewrite lookup_delete_eq. repeat split; try done.
  - apply purchase_history_delete.
  - rewrite get_purchases_answers by done. unfold answered. cbn [cells database tabs].
    unfold the_cell. cbn [cells].
    rewrite (list_lookup_middle _ [] _ (S (length (cells w))))
      by (rewrite length_app; cbn; lia).
    rewrite purchase_history_delete. done.
Qed.

Lemma owner_delete_ignores_status_and_hides_purchases_witness :
  p_status desk = "sold"
  ∧ pu_product_id <$> purchases_of 11 (open_shop uncaught) = [11]
  ∧ (let w' := drain (delete_products 1 11 (open_shop uncaught)) in
     status_code <$> sent (the_cell 0 w') = [200]
     ∧ products (tabs (database w')) !! 11 = None
     ∧ purchases (tabs (database w')) = purchases shop
     ∧ purchase_history (tabs (database w')) 3
       = filter (λ r, pu_product_id r.1.1 ≠ 11) (purchase_history shop 3)).
Proof.
  split; [reflexivity|]. split; [reflexivity|].
  destruct (owner_delete_ignores_status_and_hides_purchases 1 11 desk (open_shop uncaught))
    as (Hsent & Hgone & Hrows & Hlist); [reflexivity | reflexivity | reflexivity |].
  cbv zeta. split; [exact (f_equal (fmap status_code) Hsent)|].
  split; [exact Hgone|]. split; [exact Hrows|]. exact (proj1 (Hlist 3)).
Defined.

(** Carol's history lists the desk she bought until Alice deletes it. *)
Example desk_leaves_carols_history :
  (λ r, r.1.2) <$> purchase_history shop 3 = ["desk"]
  ∧ purchase_history (tabs (database (drain (delete_products 1 11 (open_shop uncaught))))) 3
    = [].
Proof. vm_compute. done. Qed.

(** ** The cart routes *)

Lemma post_cart_cases userId product_id t :
  (∃ id p, product_id = Some id ∧ id ≠ 0 ∧ products t !! id = Some p
           ∧ p_status p = "available" ∧ p_user_id p ≠ userId
           ∧ post_cart userId product_id t
             = (set_cart (λ c, {[ (userId, id) ]} ∪ c) t,
                ok (message_body "Product added to cart")))
  ∨ (∃ r, post_cart userId product_id t = (t, r) ∧ status_code r ≠ 200
          ∧ ¬ ∃ id p, product_id = Some id ∧ id ≠ 0 ∧ products t !! id = Some p
                      ∧ p_status p = "available" ∧ p_user_id p ≠ userId).
Proof.
  unfold post_cart. destruct product_id as [id|].
  2: { right. eexists. split; [done|]. split; [done|]. by intros (? & ? & ? & _). }
  destruct (decide (id = 0)) as [->|Hid].
  { right. eexists. split; [done|]. split; [done|]. by intros (? & ? & [= <-] & ? & _). }
  assert (∀ A (a b : A), match id with 0 => a | _ => b end = b) as Hm
    by (intros; by destruct id).
  rewrite Hm. destruct (available_product t id) as [p|] eqn:Hav.
  - destruct (proj1 (available_product_Some _ _ _) Hav) as [Hp Hs].
    destruct (decide (p_user_id p = userId)) as [Hown|Hown].
    + right. eexists. split; [done|]. split; [done|].
      intros (i & p' & [= <-] & _ & Hp' & _ & Hown'). congruence.
    + left. exists id, p. done.
  - right. eexists. split; [done|]. split; [done|].
    intros (i & p' & [= <-] & _ & Hp' & Hs' & _).
    by apply (proj1 (available_product_None _ _) Hav p').
Qed.

(** X1. POST /api/cart answers 200 exactly when a product id is given and the
    product exists, is available and is not the user's own; the entry is then
    in the cart. In every other case the tables are returned as they were. *)
Theorem post_cart_succeeds_iff userId product_id t :
  let '(t', r) := post_cart userId product_id t in
  (status_code r = 200
   ↔ ∃ id p, product_id = Some id ∧ id ≠ 0 ∧ products t !! id = Some p
             ∧ p_status p = "available" ∧ p_user_id p ≠ userId)
  ∧ (status_code r = 200 → ∀ id, product_id = Some id → (userId, id) ∈ cart t')
  ∧ (status_code r ≠ 200 → t' = t).
Proof.
  destruct (post_cart_cases userId product_id t)
    as [(id & p & -> & Hid & Hp & Hs & Hown & ->) | (r & -> & Hr & Hno)].
  - split; [|split]; [split; eauto 10| |done].
    intros _ i [= <-]. cbn. set_solver.
  - split; [|split]; [split; [done|by intros ?] | done | done].
Qed.

(** X2. POST /api/cart never removes an entry, never touches the entries of
    another user, and leaves users, products and purchases alone. *)
Theorem post_cart_only_adds_own_entry userId product_id t :
  let t' := (post_cart userId product_id t).1 in
  cart t ⊆ cart t'
  ∧ (∀ user_id id, user_id ≠ userId → (user_id, id) ∈ cart t' → (user_id, id) ∈ cart t)
  ∧ users t' = users t ∧ products t' = products t ∧ purchases t' = purchases t.
Proof.
  destruct (post_cart_cases userId product_id t)
    as [(id & p & -> & Hid & Hp & Hs & Hown & ->) | (r & -> & Hr & Hno)]; cbn.
  - repeat split; [set_solver|]. intros u i Hu. set_solver.
  - repeat split; done.
Qed.

(** X3. Adding the same product to the cart a second time changes nothing
    and is answered as the first time. *)
Theorem post_cart_twice userId product_id t :
  post_cart userId product_id (post_cart userId product_id t).1
  = post_cart userId product_id t.
Proof.
  destruct (post_cart_cases userId product_id t)
    as [(id & p & -> & Hid & Hp & Hs & Hown & Heq) | (r & Heq & Hr & Hno)];
    rewrite Heq; cbn [fst]; [|done].
  destruct (post_cart_cases userId (Some id) (set_cart (λ c, {[(userId, id)]} ∪ c) t))
    as [(i & p' & [= <-] & _ & _ & _ & _ & ->) | (r & _ & _ & Hno)].
  - f_equal. unfold set_cart. cbn. f_equal. set_solver.
  - destruct Hno. exists id, p. done.
Qed.

(** X4. Removing an entry that was just added, or that is not there, gives
    the cart without it: DELETE /api/cart/:productId after POST /api/cart
    leaves the tables that the DELETE alone would leave, and the DELETE of an
    entry that is not in the cart leaves the tables as they are and is
    answered 200 all the same. *)
Theorem delete_cart_entry_after_post_cart userId id t :
  (delete_cart_entry userId id (post_cart userId (Some id) t).1).1
  = (delete_cart_entry userId id t).1
  ∧ ((userId, id) ∉ cart t →
     delete_cart_entry userId id t = (t, ok (message_body "Product removed from cart"))).
Proof.
  split.
  - destruct (post_cart_cases userId (Some id) t)
      as [(i & p & [= <-] & _ & _ & _ & _ & ->) | (r & -> & _)]; [|done].
    unfold delete_cart_entry, set_cart. cbn. f_equal. set_solver.
  - intros Hin. unfold delete_cart_entry. f_equal.
    destruct t as [u p c ps n]. unfold set_cart. cbn in *. f_equal. set_solver.
Qed.

(** ** The cart listing *)

Lemma cart_row_Some t entry r :
  cart_row t entry = Some r
  ↔ ∃ p seller_name,
      products t !! entry.2 = Some p ∧ users t !! p_user_id p = Some seller_name
      ∧ p_status p = "available"
      ∧ r = {| ci_user_id := entry.1; ci_product_id := entry.2; ci_title := p_title p;
               ci_price := p_price p; ci_status := p_status p;
               ci_seller_name := seller_name |}.
Proof.
  unfold cart_row. split.
  - destruct (products t !! entry.2) as [p|] eqn:Hp; [|done].
    destruct (users t !! p_user_id p) as [name|] eqn:Hu; [|done].
    destruct (decide _) as [Hs|Hs]; [|done]. intros [= <-]. exists p, name. done.
  - intros (p & name & -> & -> & Hs & ->). by rewrite decide_True.
Qed.

Lemma elem_of_select_cart t user_id r :
  r ∈ select_cart t user_id
  ↔ ∃ id, (user_id, id) ∈ cart t ∧ cart_row t (user_id, id) = Some r.
Proof.
  unfold select_cart. rewrite list_elem_of_omap. split.
  - intros ([u id] & [Hu Hin]%list_elem_of_filter & Hrow). cbn in Hu. subst u.
    exists id. split; [by apply elem_of_elements | done].
  - intros (id & Hin & Hrow). exists (user_id, id). split; [|done].
    apply list_elem_of_filter. split; [done | by apply elem_of_elements].
Qed.

Lemma cart_row_product_id t entry r : cart_row t entry = Some r → ci_product_id r = entry.2.
Proof. intros (p & name & _ & _ & _ & ->)%cart_row_Some. done. Qed.

Lemma select_cart_sublist t (l : list (Z * Z)) :
  sublist (ci_product_id <$> omap (cart_row t) l) (l.*2).
Proof.
  induction l as [|e l IH]; [done|]. cbn [omap list_omap fmap list_fmap].
  fold (omap (cart_row t) l). destruct (cart_row t e) as [r|] eqn:Hr.
  - cbn. rewrite (cart_row_product_id _ _ _ Hr). by apply sublist_skip.
  - by apply sublist_cons.
Qed.

Lemma listed_iff t userId id :
  id ∈ handlePurchase_ids (select_cart t userId)
  ↔ (userId, id) ∈ cart t
    ∧ ∃ p, products t !! id = Some p ∧ p_status p = "available"
           ∧ is_Some (users t !! p_user_id p).
Proof.
  unfold handlePurchase_ids. rewrite list_elem_of_fmap.
  setoid_rewrite elem_of_select_cart. split.
  - intros (r & -> & i & Hin & Hrow).
    rewrite (cart_row_product_id _ _ _ Hrow). cbn. split; [done|].
    apply cart_row_Some in Hrow as (p & name & Hp & Hu & Hs & _). eauto.
  - intros (Hin & p & Hp & Hs & name & Hu). eexists. split; [|exists id; split; [done|]].
    2: { apply cart_row_Some. exists p, name. done. }
    done.
Qed.

(** X5. GET /api/cart lists a product for a user exactly when the user has
    an entry for it and the product exists, is available and has its seller
    among the users; every row carries the user's own id and the status
    available, and no product is listed twice. *)
Theorem cart_listing_shows_available_entries t userId :
  (∀ id, id ∈ handlePurchase_ids (select_cart t userId)
         ↔ (userId, id) ∈ cart t
           ∧ ∃ p, products t !! id = Some p ∧ p_status p = "available"
                  ∧ is_Some (users t !! p_user_id p))
  ∧ Forall (λ r, ci_user_id r = userId ∧ ci_status r = "available") (select_cart t userId)
  ∧ NoDup (handlePurchase_ids (select_cart t userId)).
Proof.
  split; [|split].
  - intros id. apply listed_iff.
  - apply Forall_forall. intros r (id & Hin & Hrow)%elem_of_select_cart.
    apply cart_row_Some in Hrow as (p & name & _ & _ & Hs & ->). done.
  - unfold handlePurchase_ids, select_cart.
    eapply sublist_NoDup; [|apply select_cart_sublist].
    apply NoDup_fmap_2_strong; [|apply NoDup_filter, NoDup_elements].
    intros [u1 i1] [u2 i2] [Hu1 _]%list_elem_of_filter [Hu2 _]%list_elem_of_filter Heq.
    cbn in *. congruence.
Qed.

(** X6. After a POST /api/cart that was answered 200, the product is in the
    user's listing, provided its seller is among the users. *)
Theorem post_cart_then_listed userId id p seller_name t :
  id ≠ 0 → products t !! id = Some p → p_status p = "available" →
  p_user_id p ≠ userId → users t !! p_user_id p = Some seller_name →
  let '(t', r) := post_cart userId (Some id) t in
  status_code r = 200 ∧ id ∈ handlePurchase_ids (select_cart t' userId).
Proof.
  intros Hid Hp Hs Hown Hu.
  destruct (post_cart_cases userId (Some id) t)
    as [(i & p' & [= <-] & _ & _ & _ & _ & ->) | (r & _ & _ & Hno)].
  - split; [done|]. unfold handlePurchase_ids. apply list_elem_of_fmap.
    eexists. split; [|apply elem_of_select_cart; exists id; split].
    2: { cbn. set_solver. }
    2: { apply cart_row_Some. exists p, seller_name. done. }
    done.
  - destruct Hno. exists id, p. done.
Qed.

Lemma post_cart_then_listed_witness :
  let '(t', r) := post_cart 3 (Some 12) shop in
  status_code r = 200 ∧ 12 ∈ handlePurchase_ids (select_cart t' 3).
Proof.
  apply (post_cart_then_listed 3 12 bike "bob" shop);
    [discriminate | reflexivity | reflexivity | discriminate | reflexivity].
Defined.

(** A product that is not available is in nobody's listing. *)
Lemma not_available_not_listed t user_id id :
  (∀ p, products t !! id = Some p → p_status p ≠ "available") →
  id ∉ handlePurchase_ids (select_cart t user_id).
Proof.
  intros Hno Hin. unfold handlePurchase_ids in Hin.
  apply list_elem_of_fmap in Hin as (r & -> & (i & _ & Hrow)%elem_of_select_cart).
  pose proof (cart_row_product_id _ _ _ Hrow) as Hi. cbn in Hi.
  apply cart_row_Some in Hrow as (p & name & Hp & _ & Hs & _). cbn in Hp.
  rewrite Hi in Hno. by apply (Hno p).
Qed.

(** ** Batches that complete *)

(** The world a batch leaves when every id of it passes and its statements
    run in the order of issue. *)
Lemma purchase_completes userId ids w :
  queue w = [] → ids ≠ [] →
  txn (database w) = None ∨ on_error w = unheard →
  Forall (purchasable (tabs (database w)) userId) ids →
  let oks := omap (accepted (tabs (database w)) userId) ids in
  oks.*1 = ids
  ∧ drain (post_purchase userId (js_array ids) w)
    = {| database :=
           {| tabs := tabs (exec_all (settlements userId oks)
                                     (record_purchases userId oks (begun (database w))));
              txn := None |};
         queue := [];
         cells := cells w ++ [send (purchase_completed (length ids))
                                {| completedPurchases := length ids; errors := [];
                                   sent := [] |}];
         on_error := on_error w; crashed := crashed w |}.
Proof.
  intros Hq Hids Hb Hall oks.
  destruct (all_accepted _ _ _ Hall) as [Hoks Herr]. fold oks in Hoks.
  assert (length oks = length ids) as Hlen by (by rewrite <- (length_fmap fst oks), Hoks).
  split; [done|].
  rewrite purchase_some_accepted; [|done|done|].
  2: { fold oks. intros Hnil. rewrite Hnil in Hlen. by destruct ids. }
  fold oks. rewrite Herr, Hlen. unfold verdict. cbn [errors length].
  rewrite decide_False by lia. cbn [fst snd completedPurchases].
  by erewrite exec_commit by apply txn_settled.
Qed.

Lemma products_after_batch userId oks d id :
  products (tabs (exec_all (settlements userId oks)
                           (record_purchases userId oks (begun d)))) !! id
  = if decide (id ∈ oks.*1) then mark_sold <$> products (tabs d) !! id
    else products (tabs d) !! id.
Proof. by rewrite products_settlements, products_record_purchases, tabs_begun. Qed.

Lemma users_after_batch userId oks d :
  users (tabs (exec_all (settlements userId oks)
                        (record_purchases userId oks (begun d))))
  = users (tabs d).
Proof.
  rewrite <- (tabs_begun d). generalize (begun d). clear d. intros d.
  assert (∀ d, users (tabs (record_purchases userId oks d)) = users (tabs d)) as Hrec.
  { induction oks as [|ok oks IH]; intros d'; [done|].
    by rewrite record_purchases_cons, IH. }
  rewrite <- (Hrec d). generalize (record_purchases userId oks d). clear.
  induction oks as [|ok oks IH]; intros d; [done|].
  by rewrite settlements_cons, IH.
Qed.

(** X7. After a batch in which every product was purchasable, none of its
    products is in the cart listing of any user, the buyer's or another's. *)
Theorem purchased_products_leave_every_listing userId ids w :
  queue w = [] → ids ≠ [] →
  txn (database w) = None ∨ on_error w = unheard →
  Forall (purchasable (tabs (database w)) userId) ids →
  let w' := drain (post_purchase userId (js_array ids) w) in
  ∀ user_id id, id ∈ ids →
    id ∉ handlePurchase_ids (select_cart (tabs (database w')) user_id).
Proof.
  intros Hq Hids Hb Hall w' v id Hid. unfold w'.
  destruct (purchase_completes userId ids w) as [Hoks ->]; [done..|].
  cbn [database tabs]. apply not_available_not_listed. intros p.
  rewrite products_after_batch, Hoks, decide_True by done.
  destruct (products (tabs (database w)) !! id); [|done]. by intros [= <-].
Qed.

Lemma purchased_products_leave_every_listing_witness :
  let w' := drain (post_purchase 2 (js_array [10]) (open_shop uncaught)) in
  status_of 10 w' = Some "sold"
  ∧ 10 ∉ handlePurchase_ids (select_cart (tabs (database w')) 3).
Proof.
  split; [vm_compute; reflexivity|].
  refine (purchased_products_leave_every_listing 2 [10] (open_shop uncaught) _ _ _ _ 3 10 _);
    [reflexivity | discriminate | left; reflexivity | exact shop_lamp_purchasable
    | constructor].
Defined.

(** X8. Buy-now deletes nothing from the cart, yet the product it sold is in
    no cart listing afterwards: the buyer's entry stays in the table and is
    hidden by the listing. *)
Theorem buy_now_hides_the_product_from_listings userId id pm p w :
  queue w = [] → id ≠ 0 → pm ≠ "" →
  txn (database w) = None ∨ on_error w = unheard →
  products (tabs (database w)) !! id = Some p → p_status p = "available" →
  p_user_id p ≠ userId →
  let w' := drain (post_buy_now userId (Some id) (Some pm) w) in
  cart (tabs (database w')) = cart (tabs (database w))
  ∧ ∀ user_id, id ∉ handlePurchase_ids (select_cart (tabs (database w')) user_id).
Proof.
  intros Hq Hid Hpm Hb Hp Hs Hown w'. unfold w'.
  rewrite (buy_now_sells userId id pm p) by (done || by apply available_product_Some).
  cbn [database tabs]. split; [done|]. intros v.
  apply not_available_not_listed. intros p'. cbn.
  rewrite lookup_alter_eq, Hp. by intros [= <-].
Qed.

Lemma buy_now_hides_the_product_from_listings_witness :
  let w' := drain (post_buy_now 2 (Some 10) (Some "paypal") (open_shop uncaught)) in
  cart (tabs (database w')) = cart shop
  ∧ ∀ user_id, 10 ∉ handlePurchase_ids (select_cart (tabs (database w')) user_id).
Proof.
  apply (buy_now_hides_the_product_from_listings 2 10 "paypal" lamp (open_shop uncaught));
    [reflexivity | discriminate | discriminate | left; reflexivity
    | reflexivity | reflexivity | discriminate].
Defined.

(** X9. Checking out the whole cart listing, as the cart page does: when the
    listing is not empty and none of its products is the buyer's own, the
    batch of its product ids completes, one purchase for each row of the
    listing, and the buyer's listing is then empty. *)
Theorem checkout_of_the_listing_empties_it userId w :
  queue w = [] →
  txn (database w) = None ∨ on_error w = unheard →
  let t := tabs (database w) in
  let ids := handlePurchase_ids (select_cart t userId) in
  ids ≠ [] →
  (∀ id p, id ∈ ids → products t !! id = Some p → p_user_id p ≠ userId) →
  let w' := drain (post_purchase userId (js_array ids) w) in
  sent (the_cell (length (cells w)) w') = [purchase_completed (length ids)]
  ∧ select_cart (tabs (database w')) userId = [].
Proof.
  intros Hq Hb t ids Hids Hothers w'.
  pose proof (listed_iff t userId) as Hlisted.
  assert (Forall (purchasable t userId) ids) as Hall.
  { apply Forall_forall. intros id Hid.
    destruct (proj1 (Hlisted id) Hid) as (_ & p & Hp & Hs & _).
    exists p. eauto. }
  unfold w'. destruct (purchase_completes userId ids w) as [Hoks ->]; [done..|].
  rewrite the_cell_new. split; [done|]. cbn [database tabs].
  apply elem_of_nil_inv. intros r (id & Hin & Hrow)%elem_of_select_cart.
  apply cart_settlements in Hin as [Hin Hnot]. cbn in Hnot.
  rewrite cart_record_purchases, tabs_begun in Hin. rewrite Hoks in Hnot.
  apply cart_row_Some in Hrow as (p' & name & Hp' & Hu & Hs' & _). cbn in Hp'.
  rewrite products_after_batch, Hoks in Hp'. rewrite users_after_batch in Hu.
  destruct (decide (id ∈ ids)) as [Hid|Hid]; [by destruct Hnot|].
  apply Hid, Hlisted. split; [done|]. exists p'. eauto.
Qed.

Lemma bobs_listing_is_the_lamp :
  handlePurchase_ids (select_cart shop 2) = [10]
  ∧ ∀ id p, id ∈ handlePurchase_ids (select_cart shop 2) →
            products shop !! id = Some p → p_user_id p ≠ 2.
Proof.
  assert (handlePurchase_ids (select_cart shop 2) = [10]) as Hids by by vm_compute.
  split; [done|]. rewrite Hids. intros id p ->%list_elem_of_singleton.
  by intros [= <-].
Qed.

Lemma checkout_of_the_listing_empties_it_witness :
  let ids := handlePurchase_ids (select_cart shop 2) in
  let w' := drain (post_purchase 2 (js_array ids) (open_shop uncaught)) in
  sent (the_cell 0 w') = [purchase_completed (length ids)]
  ∧ select_cart (tabs (database w')) 2 = [].
Proof.
  apply (checkout_of_the_listing_empties_it 2 (open_shop uncaught));
    [reflexivity | left; reflexivity
    | vm_compute; discriminate
    | exact (proj2 bobs_listing_is_the_lamp)].
Defined.

(** ** What a batch records *)


Lemma purchase_repeated_id_sells_twice_witness :
  let w' := drain (post_purchase 2 (js_array [10; 10]) (open_shop uncaught)) in
  sent (the_cell 0 w') = [purchase_completed 2]
  ∧ purchases (tabs (database w'))
    = purchases shop
      ++ [ {| pu_id := 2; pu_buyer_id := 2; pu_product_id := 10; pu_seller_id := 1;
              pu_price := 1000 |};
           {| pu_id := 3; pu_buyer_id := 2; pu_product_id := 10; pu_seller_id := 1;
              pu_price := 1000 |} ].
Proof.
  apply (purchase_repeated_id_sells_twice 2 10 lamp (open_shop uncaught));
    [reflexivity | left; reflexivity | vm_compute; reflexivity | reflexivity | discriminate].
Defined.

Lemma shop_lamp_and_bike_purchasable : Forall (purchasable shop 3) [10; 12].
Proof. repeat constructor; [exists lamp | exists bike]; by vm_compute. Qed.

(** X10. With no transaction left open before, a non-empty batch in which
    every product was purchasable appends one purchase row for each id of the
    batch, in the order in which sqlite3 runs the INSERTs, which need not be
    that of the batch: the rows are numbered on from the last id handed out,
    and each has the buyer, the owner of its product as seller and the price
    the product had when the batch arrived; the rows that were there are
    kept. *)
Theorem purchase_records_seller_and_price userId ids w :
  queue w = [] → ids ≠ [] → txn (database w) = None →
  Forall (purchasable (tabs (database w)) userId) ids →
  let t := tabs (database w) in
  let w0 := post_purchase userId (js_array ids) w in
  (∃ sched w', completes sched w0 w')
  ∧ ∀ sched w', completes sched w0 w' →
      ∃ rows,
        purchases (tabs (database w')) = purchases t ++ rows
        ∧ pu_product_id <$> rows ≡ₚ ids
        ∧ ∀ k pu, rows !! k = Some pu →
            pu_id pu = purchases_seq t + Z.of_nat k + 1
            ∧ pu_buyer_id pu = userId
            ∧ ∃ p, products t !! pu_product_id pu = Some p
                   ∧ pu_seller_id pu = p_user_id p ∧ pu_price pu = p_price p.
Proof.
  intros Hq Hids Ht Hall t w0. split.
  { destruct (drain_completes w0) as [sched Hc]. by exists sched, (drain w0). }
  intros sched w' Hc.
  destruct (all_accepted _ _ _ Hall) as [Hoks Herr].
  assert (omap (accepted t userId) ids ≠ []) as Hne.
  { intros Hnil. unfold t in Hnil. rewrite Hnil in Hoks. by destruct ids. }
  destruct (batch_any_order userId ids w sched w' Hq Ht Hne Hc)
    as (recorded & updated & deleted & -> & _ & _ & Hcommit & _).
  destruct (Hcommit Herr) as [Hrec _].
  exists (purchase_rows userId (purchases_seq t) recorded). split; [done|]. split.
  - unfold purchase_rows. rewrite fmap_imap.
    rewrite (imap_ext _ (const fst)) by done. rewrite imap_const.
    rewrite Hrec. exact (eq_ind_r (λ l, l ≡ₚ ids) (reflexivity ids) Hoks).
  - intros k pu. unfold purchase_rows. rewrite list_lookup_imap.
    destruct (recorded !! k) as [ok|] eqn:Hk; [|done]. intros [= <-].
    cbn. split; [done|]. split; [done|]. exists ok.2. split; [|done].
    apply (accepted_product t userId ids). fold t in Hrec. rewrite <- Hrec.
    by eapply list_elem_of_lookup_2.
Qed.

Lemma purchase_records_seller_and_price_witness :
  let w0 := post_purchase 3 (js_array [10; 12]) (open_shop uncaught) in
  let w' := default w0 (run_along [0; 0; 0; 1; 0; 0; 0; 0; 0; 0]%nat w0) in
  pu_product_id <$> purchases (tabs (database w')) = [11; 12; 10]
  ∧ ∃ rows,
      purchases (tabs (database w')) = purchases shop ++ rows
      ∧ pu_product_id <$> rows ≡ₚ [10; 12]
      ∧ ∀ k pu, rows !! k = Some pu →
          pu_id pu = purchases_seq shop + Z.of_nat k + 1
          ∧ pu_buyer_id pu = 3
          ∧ ∃ p, products shop !! pu_product_id pu = Some p
                 ∧ pu_seller_id pu = p_user_id p ∧ pu_price pu = p_price p.
Proof.
  split; [vm_compute; reflexivity|].
  destruct (purchase_records_seller_and_price 3 [10; 12] (open_shop uncaught)) as [_ H];
    [reflexivity | discriminate | reflexivity | exact shop_lamp_and_bike_purchasable |].
  apply (H [0; 0; 0; 1; 0; 0; 0; 0; 0; 0]%nat). split; vm_compute; reflexivity.
Defined.

(** X29. With no transaction left open before, a non-empty batch in which
    every product was purchasable ends in the same way whatever the order in which
    its statements run: it is answered as completed with the number of its
    ids, the transaction is closed, the products of the batch are marked
    sold and no other product changes, exactly the buyer's cart entries for
    the products of the batch are deleted, and there is one purchase row more
    for each id. *)
Theorem purchase_settles_in_any_order userId ids w :
  queue w = [] → ids ≠ [] → txn (database w) = None →
  Forall (purchasable (tabs (database w)) userId) ids →
  let t := tabs (database w) in
  let w0 := post_purchase userId (js_array ids) w in
  (∃ sched w', completes sched w0 w')
  ∧ ∀ sched w', completes sched w0 w' →
      sent (the_cell (length (cells w)) w') = [purchase_completed (length ids)]
      ∧ crashed w' = crashed w
      ∧ txn (database w') = None
      ∧ (∀ id, products (tabs (database w')) !! id
               = if decide (id ∈ ids) then mark_sold <$> products t !! id
                 else products t !! id)
      ∧ (∀ user_id product_id,
           (user_id, product_id) ∈ cart (tabs (database w'))
           ↔ (user_id, product_id) ∈ cart t ∧ ¬ (user_id = userId ∧ product_id ∈ ids))
      ∧ length (purchases (tabs (database w')))
        = (length (purchases t) + length ids)%nat.
Proof.
  intros Hq Hids Ht Hall t w0. split.
  { destruct (drain_completes w0) as [sched Hc]. by exists sched, (drain w0). }
  intros sched w' Hc.
  destruct (all_accepted _ _ _ Hall) as [Hoks Herr].
  assert (omap (accepted t userId) ids ≠ []) as Hne.
  { intros Hnil. unfold t in Hnil. rewrite Hnil in Hoks. by destruct ids. }
  destruct (batch_any_order userId ids w sched w' Hq Ht Hne Hc)
    as (recorded & updated & deleted & -> & HU & HD & Hcommit & _).
  destruct (Hcommit Herr) as [Hrec Hdone]. subst t w0.
  rewrite Hoks in Hdone, HU, HD.
  assert (length (omap (accepted (tabs (database w)) userId) ids) = length ids) as Hlen.
  { by rewrite <- Hoks at 2; rewrite length_fmap. }
  rewrite the_cell_new. cbn [database tabs txn crashed].
  unfold verdict, final_cell. cbn [errors completedPurchases]. rewrite Herr.
  cbn [length]. rewrite decide_False by lia. cbn [snd send sent app]. rewrite Hlen.
  split; [done|]. split; [done|]. split; [done|]. split; [|split].
  - intros id. rewrite products_settled.
    destruct (decide (id ∈ ids)) as [Hin|Hin].
    + rewrite decide_True; [done|]. by apply Hdone.
    + rewrite decide_False; [done|]. intros Hu. apply Hin.
      by apply (proj1 (Forall_forall _ _) HU).
  - intros u i. rewrite cart_settled. cbn. split.
    + intros [Hin Hno]. split; [done|]. intros [-> Hi]. apply Hno. split; [done|].
      by apply Hdone.
    + intros [Hin Hno]. split; [done|]. intros [-> Hi]. apply Hno. split; [done|].
      by apply (proj1 (Forall_forall _ _) HD).
  - cbn. rewrite length_app. unfold purchase_rows. rewrite length_imap.
    by rewrite (Permutation_length Hrec), Hlen.
Qed.

Lemma purchase_settles_in_any_order_witness :
  let w0 := post_purchase 3 (js_array [10; 12]) (open_shop uncaught) in
  let w' := default w0 (run_along [0; 0; 0; 1; 0; 4; 0; 2; 0; 0]%nat w0) in
  sent (the_cell 0 w') = [purchase_completed 2]
  ∧ crashed w' = false
  ∧ txn (database w') = None
  ∧ (∀ id, products (tabs (database w')) !! id
           = if decide (id ∈ [10; 12]) then mark_sold <$> products shop !! id
             else products shop !! id)
  ∧ (∀ user_id product_id,
       (user_id, product_id) ∈ cart (tabs (database w'))
       ↔ (user_id, product_id) ∈ cart shop ∧ ¬ (user_id = 3 ∧ product_id ∈ [10; 12]))
  ∧ length (purchases (tabs (database w'))) = 3%nat.
Proof.
  destruct (purchase_settles_in_any_order 3 [10; 12] (open_shop uncaught)) as [_ H];
    [reflexivity | discriminate | reflexivity | exact shop_lamp_and_bike_purchasable |].
  apply (H [0; 0; 0; 1; 0; 4; 0; 2; 0; 0]%nat). split; vm_compute; reflexivity.
Defined.

(** ** Requests with one run *)

(** A buy-now request that arrives on an idle connection has one run:
    each of its statements is serialized or is issued by the callback of the
    one before, so that what the run in the order of issue leaves is what the
    request leaves. *)
Theorem buy_now_has_one_run userId product_id payment_method w :
  queue w = [] →
  let w0 := post_buy_now userId product_id payment_method w in
  (∃ sched, completes sched w0 (drain w0))
  ∧ ∀ sched w', completes sched w0 w' → w' = drain w0.
Proof.
  intros Hq w0. split; [apply drain_completes|].
  intros sched w' Hc. by eapply buy_now_one_way.
Qed.

Lemma buy_now_has_one_run_witness :
  let w0 := post_buy_now 2 (Some 10) (Some "paypal") (open_shop uncaught) in
  default w0 (run_along (replicate 5 0%nat) w0) = drain w0.
Proof.
  destruct (buy_now_has_one_run 2 (Some 10) (Some "paypal") (open_shop uncaught))
    as [_ H]; [reflexivity|].
  apply (H (replicate 5 0%nat)). split; vm_compute; reflexivity.
Defined.

(** A batch in which no id passes has one run, BEGIN and the SELECTs in
    the order of the batch, all serialized: it is never answered and leaves
    its transaction open whatever sqlite3 chooses. *)
Theorem purchase_all_refused_has_one_run userId ids w :
  queue w = [] → ids ≠ [] → txn (database w) = None →
  omap (accepted (tabs (database w)) userId) ids = [] →
  let w0 := post_purchase userId (js_array ids) w in
  (∃ sched, completes sched w0 (drain w0))
  ∧ ∀ sched w', completes sched w0 w' → w' = drain w0.
Proof.
  intros Hq Hids Ht Hoks w0. split; [apply drain_completes|].
  intros sched w' Hc.
  destruct (batch_first_turns userId ids w Hq Hids Ht) as [Hf H1].
  apply (one_way (1 + length ids) w0 sched); [done| |done].
  unfold w0. rewrite H1, Hoks. done.
Qed.

Lemma purchase_all_refused_has_one_run_witness :
  let w0 := post_purchase 3 (js_array [11]) (open_shop uncaught) in
  default w0 (run_along [0; 0]%nat w0) = drain w0.
Proof.
  destruct (purchase_all_refused_has_one_run 3 [11] (open_shop uncaught)) as [_ H];
    [reflexivity | discriminate | reflexivity | vm_compute; reflexivity |].
  apply (H [0; 0]%nat). split; vm_compute; reflexivity.
Defined.

(** ** Deleting what is not one's own *)

Lemma delete_products_not_owned userId id w :
  queue w = [] →
  owned_product (tabs (database w)) id userId = false →
  drain (delete_products userId id w)
  = answered (failure 404 "Product not found or unauthorized") w.
Proof.
  intros Hq Hown. unfold delete_products, accept, db_run, set_queue, set_cells, answered.
  cbn [queue cells database on_error crashed]. rewrite Hq. cbn [app].
  apply (drain_to 1); [|done]. turn. rewrite Hown. reduce. unfold delete_run.
  rewrite decide_True by done. reduce. rewrite alter_last. by destruct (database w).
Qed.

(** X11. DELETE /api/products/:id for a product that does not exist or
    belongs to another user is answered 404 and changes nothing: no user can
    delete another user's product. *)
Theorem delete_of_anothers_product_is_404 userId id w :
  queue w = [] →
  (∀ p, products (tabs (database w)) !! id = Some p → p_user_id p ≠ userId) →
  let w' := drain (delete_products userId id w) in
  sent (the_cell (length (cells w)) w')
  = [failure 404 "Product not found or unauthorized"]
  ∧ database w' = database w.
Proof.
  intros Hq Hno w'. unfold w'. rewrite delete_products_not_owned; [|done|].
  - unfold answered. by rewrite the_cell_new.
  - unfold owned_product. destruct (products _ !! id) as [p|]; [|done].
    apply bool_decide_eq_false. by apply Hno.
Qed.

Lemma delete_of_anothers_product_is_404_witness :
  let w' := drain (delete_products 3 10 (open_shop uncaught)) in
  sent (the_cell 0 w') = [failure 404 "Product not found or unauthorized"]
  ∧ database w' = database (open_shop uncaught).
Proof.
  apply (delete_of_anothers_product_is_404 3 10 (open_shop uncaught)); [reflexivity|].
  intros p. vm_compute. by intros [= <-].
Defined.

(** X12. When its owner deletes a product, the cart entries that refer to it
    stay in the cart table, and the product is in no cart listing any more. *)
Theorem deleted_product_leaves_every_listing userId id p w :
  queue w = [] →
  products (tabs (database w)) !! id = Some p → p_user_id p = userId →
  let w' := drain (delete_products userId id w) in
  cart (tabs (database w')) = cart (tabs (database w))
  ∧ ∀ user_id, id ∉ handlePurchase_ids (select_cart (tabs (database w')) user_id).
Proof.
  intros Hq Hp Hown w'. unfold w'. rewrite (delete_products_owned userId id p) by done.
  cbn [database tabs]. split; [done|]. intros v.
  apply not_available_not_listed. intros p'. cbn. by rewrite lookup_delete_eq.
Qed.

Lemma deleted_product_leaves_every_listing_witness :
  let w' := drain (delete_products 1 10 (open_shop uncaught)) in
  cart (tabs (database w')) = cart shop
  ∧ ∀ user_id, 10 ∉ handlePurchase_ids (select_cart (tabs (database w')) user_id).
Proof.
  apply (deleted_product_leaves_every_listing 1 10 lamp (open_shop uncaught));
    reflexivity.
Defined.

(** ** The purchase history *)

Lemma elem_of_purchase_history t buyer r :
  r ∈ purchase_history t buyer
  ↔ ∃ pu, pu ∈ purchases t ∧ pu_buyer_id pu = buyer ∧ join_purchase t pu = Some r.
Proof.
  unfold purchase_history. rewrite list_elem_of_omap.
  setoid_rewrite list_elem_of_filter. setoid_rewrite elem_of_reverse. naive_solver.
Qed.

(** X13. GET /api/purchases lists purchases of the asking user only: every
    row of the answer is a row of the purchases table whose buyer is that
    user, with the title of its product and the name of its seller. *)
Theorem history_lists_own_purchases_only userId w :
  queue w = [] →
  let t := tabs (database w) in
  let w' := drain (get_purchases userId w) in
  ∃ rows,
    sent (the_cell (length (cells w)) w') = [ok (JArr (history_json <$> rows))]
    ∧ database w' = database w
    ∧ Forall (λ r, let '(pu, title, seller_name) := r in
                   pu ∈ purchases t ∧ pu_buyer_id pu = userId
                   ∧ p_title <$> products t !! pu_product_id pu = Some title
                   ∧ users t !! pu_seller_id pu = Some seller_name) rows.
Proof.
  intros Hq t w'. unfold w'. rewrite get_purchases_answers by done.
  exists (purchase_history t userId). unfold answered. rewrite the_cell_new.
  split; [done|]. split; [done|]. apply Forall_forall.
  intros [[pu title] name] (pu' & Hin & Hb & Hj)%elem_of_purchase_history.
  pose proof (join_purchase_fst _ _ _ Hj) as Hfst. cbn in Hfst. subst pu'.
  unfold join_purchase in Hj.
  destruct (products t !! pu_product_id pu) as [pr|]; [|done].
  destruct (users t !! pu_seller_id pu) as [u|]; [|done].
  by injection Hj as <- <-.
Qed.

Lemma history_lists_own_purchases_only_witness :
  let w' := drain (get_purchases 3 (open_shop uncaught)) in
  ∃ rows,
    sent (the_cell 0 w') = [ok (JArr (history_json <$> rows))]
    ∧ database w' = database (open_shop uncaught)
    ∧ Forall (λ r, let '(pu, title, seller_name) := r in
                   pu ∈ purchases shop ∧ pu_buyer_id pu = 3
                   ∧ p_title <$> products shop !! pu_product_id pu = Some title
                   ∧ users shop !! pu_seller_id pu = Some seller_name) rows.
Proof.
  apply (history_lists_own_purchases_only 3 (open_shop uncaught)). reflexivity.
Defined.

Lemma join_purchase_sold t userId id p pu :
  products t !! id = Some p →
  join_purchase (set_products (alter mark_sold id)
                   (add_purchase userId id (p_user_id p) (p_price p) t)) pu
  = join_purchase t pu.
Proof.
  intros Hp. unfold join_purchase. cbn.
  destruct (decide (pu_product_id pu = id)) as [->|Hne].
  - by rewrite lookup_alter_eq, Hp.
  - by rewrite lookup_alter_ne.
Qed.

(** X14. After a buy-now that sold a product whose seller is among the
    users, on an idle connection with no transaction left open, the buyer's
    purchase history lists the rows it listed before and the new purchase:
    its id, the product, the seller and the price paid, the title of the
    product and the name of the seller. *)
Theorem buy_now_joins_the_history userId id pm p seller_name w :
  queue w = [] → id ≠ 0 → pm ≠ "" →
  txn (database w) = None ∨ on_error w = unheard →
  products (tabs (database w)) !! id = Some p → p_status p = "available" →
  p_user_id p ≠ userId → users (tabs (database w)) !! p_user_id p = Some seller_name →
  let t := tabs (database w) in
  let w' := drain (post_buy_now userId (Some id) (Some pm) w) in
  purchase_history (tabs (database w')) userId
  ≡ₚ ({| pu_id := purchases_seq t + 1; pu_buyer_id := userId; pu_product_id := id;
         pu_seller_id := p_user_id p; pu_price := p_price p |}, p_title p, seller_name)
     :: purchase_history t userId.
Proof.
  intros Hq Hid Hpm Hb Hp Hs Hown Hu t w'. unfold w'.
  rewrite (buy_now_sells userId id pm p) by (done || by apply available_product_Some).
  cbn [database tabs]. fold t. unfold purchase_history at 1.
  cbn [purchases set_products add_purchase].
  rewrite reverse_app, reverse_singleton. cbn [app].
  rewrite filter_cons_True by done. cbn [omap list_omap].
  rewrite (join_purchase_sold t userId id p) by done.
  unfold join_purchase at 1. cbn [pu_product_id pu_seller_id]. unfold t at 1 2.
  rewrite Hp, Hu. apply Permutation_cons; [done|].
  assert (∀ l, omap (join_purchase (set_products (alter mark_sold id)
                       (add_purchase userId id (p_user_id p) (p_price p) t))) l
               = omap (join_purchase t) l) as ->; [|done].
  intros l. apply list_omap_ext, Forall2_same_length_lookup_2; [done|].
  intros i pu pu' Hpu Hpu'. assert (pu' = pu) as -> by congruence.
  by apply join_purchase_sold.
Qed.

Lemma buy_now_joins_the_history_witness :
  let w' := drain (post_buy_now 2 (Some 10) (Some "paypal") (open_shop uncaught)) in
  purchase_history (tabs (database w')) 2
  ≡ₚ ({| pu_id := 2; pu_buyer_id := 2; pu_product_id := 10; pu_seller_id := 1;
         pu_price := 1000 |}, "lamp", "alice") :: purchase_history shop 2.
Proof.
  apply (buy_now_joins_the_history 2 10 "paypal" lamp "alice" (open_shop uncaught));
    [reflexivity | discriminate | discriminate | left; reflexivity
    | reflexivity | reflexivity | discriminate | reflexivity].
Defined.

(** ** Favourites *)

Lemma post_favorites_cases userId product_id t :
  (∃ id p, product_id = Some id ∧ id ≠ 0 ∧ products t !! id = Some p
           ∧ p_status p = "available" ∧ p_user_id p ≠ userId
           ∧ ∀ s, post_favorites userId product_id t s
                  = (set_favorites (λ f, {[ (userId, id) ]} ∪ f) s,
                     if decide ((userId, id) ∈ favorites s)
                     then failure 400 "Product already in favorites"
                     else ok (message_body "Product added to favorites")))
  ∨ (∃ r, status_code r ≠ 200 ∧ ∀ s, post_favorites userId product_id t s = (s, r)).
Proof.
  unfold post_favorites. destruct product_id as [id|].
  2: { right. exists (failure 400 "Product ID is required"). done. }
  destruct (decide (id = 0)) as [->|Hid].
  { right. exists (failure 400 "Product ID is required"). done. }
  assert (∀ A (a b : A), match id with 0 => a | _ => b end = b) as Hm
    by (intros; by destruct id).
  destruct (available_product t id) as [p|] eqn:Hav.
  2: { right. exists (failure 404 "Product not found or unavailable").
       split; [done|]. intros s. by rewrite Hm. }
  destruct (proj1 (available_product_Some _ _ _) Hav) as [Hp Hs].
  destruct (decide (p_user_id p = userId)) as [Hown|Hown].
  { right. exists (failure 400 "Cannot add your own product to favorites").
    split; [done|]. intros s. by rewrite Hm. }
  left. exists id, p. repeat split; try done. intros s. rewrite Hm.
  by destruct (decide ((userId, id) ∈ favorites s)).
Qed.

Lemma set_favorites_present userId id s :
  (userId, id) ∈ favorites s → set_favorites (λ f, {[ (userId, id) ]} ∪ f) s = s.
Proof.
  intros Hin. destruct s as [f v]. unfold set_favorites. cbn in *. f_equal. set_solver.
Qed.

(** X15. For a product of non-zero id that is available and not the user's
    own, POST
    /api/favorites is answered 400 "Product already in favorites" and changes
    nothing when the product is already among the user's favourites; so a
    second POST right after a first is refused in this way, where the cart
    accepts it. The availability is asked first: for a product that is not
    available the answer is 404, favourite or not. *)
Theorem post_favorites_twice userId id p t s :
  id ≠ 0 → products t !! id = Some p → p_status p = "available" → p_user_id p ≠ userId →
  ((userId, id) ∈ favorites s →
   post_favorites userId (Some id) t s = (s, failure 400 "Product already in favorites"))
  ∧ post_favorites userId (Some id) t (post_favorites userId (Some id) t s).1
    = ((post_favorites userId (Some id) t s).1, failure 400 "Product already in favorites")
  ∧ ∀ t', (∀ p', products t' !! id = Some p' → p_status p' ≠ "available") →
          post_favorites userId (Some id) t' s
          = (s, failure 404 "Product not found or unavailable").
Proof.
  intros Hid Hp Hs Hown.
  destruct (post_favorites_cases userId (Some id) t)
    as [(i & p' & [= <-] & _ & _ & _ & _ & Hadd) | (r & Hcode & Hr)].
  - split; [|split].
    + intros Hin. rewrite Hadd, decide_True by done. by rewrite set_favorites_present.
    + rewrite !Hadd. cbn [fst].
      assert ((userId, id) ∈ favorites (set_favorites (λ f, {[(userId, id)]} ∪ f) s))
        as Hin by (cbn; set_solver).
      rewrite decide_True by done. by rewrite set_favorites_present.
    + intros t' Hno. unfold post_favorites.
      assert (∀ A (a b : A), match id with 0 => a | _ => b end = b) as Hm
        by (intros; by destruct id).
      rewrite Hm. by rewrite (proj2 (available_product_None t' id)).
  - exfalso. specialize (Hr {| favorites := ∅; product_views := [] |}).
    unfold post_favorites in Hr.
    assert (∀ A (a b : A), match id with 0 => a | _ => b end = b) as Hm
      by (intros; by destruct id).
    rewrite Hm, (proj2 (available_product_Some t id p)), decide_False in Hr by done.
    rewrite decide_False in Hr by set_solver. cbn in Hr. injection Hr as _ <-. done.
Qed.

Lemma post_favorites_twice_witness :
  post_favorites 3 (Some 10) shop {| favorites := {[ (3, 10) ]}; product_views := [] |}
  = ({| favorites := {[ (3, 10) ]}; product_views := [] |},
     failure 400 "Product already in favorites").
Proof.
  destruct (post_favorites_twice 3 10 lamp shop
              {| favorites := {[ (3, 10) ]}; product_views := [] |}) as [H _];
    [discriminate | reflexivity | reflexivity | discriminate |].
  apply H. vm_compute. reflexivity.
Defined.

(** X28. DELETE /api/favorites/:productId undoes the POST: after it the pair
    is no favourite of the user, every other favourite and every recorded
    view is as before, and removing right after adding leaves what removing
    alone would leave. *)
Theorem delete_favorites_removes_that_pair_only userId id t s :
  let s' := (delete_favorites userId id s).1 in
  (∀ entry, entry ∈ favorites s' ↔ entry ∈ favorites s ∧ entry ≠ (userId, id))
  ∧ product_views s' = product_views s
  ∧ (delete_favorites userId id (post_favorites userId (Some id) t s).1).1 = s'.
Proof.
  intros s'. unfold s'. split; [|split].
  - intros entry. unfold delete_favorites, set_favorites. cbn. set_solver.
  - done.
  - destruct (post_favorites_cases userId (Some id) t)
      as [(i & p & [= <-] & _ & _ & _ & _ & ->) | (r & _ & ->)]; [|done].
    unfold delete_favorites, set_favorites. cbn. f_equal. set_solver.
Qed.

(** X16. POST /api/favorites answers 200 exactly when a product id is given,
    the product exists, is available and is not the user's own, and it is not
    yet among the user's favourites; no other entry is added or removed. *)
Theorem post_favorites_succeeds_iff userId product_id t s :
  let '(s', r) := post_favorites userId product_id t s in
  (status_code r = 200
   ↔ ∃ id p, product_id = Some id ∧ id ≠ 0 ∧ products t !! id = Some p
             ∧ p_status p = "available" ∧ p_user_id p ≠ userId
             ∧ (userId, id) ∉ favorites s)
  ∧ (∀ entry, entry ∈ favorites s'
              ↔ entry ∈ favorites s
                ∨ (status_code r = 200 ∧ product_id = Some entry.2 ∧ entry.1 = userId))
  ∧ product_views s' = product_views s.
Proof.
  destruct (post_favorites_cases userId product_id t)
    as [(id & p & -> & Hid & Hp & Hs & Hown & Hadd) | (r & Hcode & Hr)].
  - rewrite Hadd. destruct (decide ((userId, id) ∈ favorites s)) as [Hin|Hin].
    + split; [|split]; [split; [done|] | | done].
      * intros (i & p' & [= <-] & _ & _ & _ & _ & Hno). done.
      * intros [u i]. cbn. split; [|intros [?|[? _]]; [set_solver|done]].
        intros [->%elem_of_singleton | ?]%elem_of_union; by left.
    + split; [|split]; [split; [eauto 10|done] | | done].
      intros [u i]. cbn. rewrite elem_of_union, elem_of_singleton. split.
      * intros [[= -> ->] | ?]; [right | left]; done.
      * intros [? | (_ & [= ->] & ->)]; [right | left]; done.
  - rewrite Hr. split; [|split]; [split; [done|] | | done].
    + intros (id & p & -> & Hid & Hp & Hs & Hown & Hno). exfalso.
      pose proof (Hr s) as Hx. unfold post_favorites in Hx.
      assert (∀ A (a b : A), match id with 0 => a | _ => b end = b) as Hm
        by (intros; by destruct id).
      rewrite Hm, (proj2 (available_product_Some t id p)) in Hx by done.
      rewrite decide_False in Hx by done. cbv zeta in Hx.
      rewrite (decide_False (P := (userId, id) ∈ favorites s)) in Hx by done.
      cbn in Hx. injection Hx as _ <-. done.
    + intros entry. split; [by left | by intros [? | [? _]]].
Qed.

Lemma favorite_row_Some t entry r :
  favorite_row t entry = Some r
  ↔ ∃ p, products t !! entry.2 = Some p ∧ p_status p = "available"
         ∧ r = {| fi_user_id := entry.1; fi_product_id := entry.2;
                  fi_title := p_title p; fi_price := p_price p;
                  fi_status := p_status p;
                  fi_seller_name := users t !! p_user_id p |}.
Proof.
  unfold favorite_row. split.
  - destruct (products t !! entry.2) as [p|] eqn:Hp; [|done].
    destruct (decide _) as [Hs|Hs]; [|done]. intros [= <-]. by exists p.
  - intros (p & -> & Hs & ->). by rewrite decide_True.
Qed.

(** X17. GET /api/favorites lists, for a user, exactly the user's own
    favourites whose product exists and is available; unlike the cart
    listing it also lists a product whose seller is no longer among the
    users, with no seller name. *)
Theorem favorites_listing_shows_available_entries t s userId r :
  r ∈ select_favorites t s userId
  ↔ ∃ id p, (userId, id) ∈ favorites s ∧ products t !! id = Some p
            ∧ p_status p = "available"
            ∧ r = {| fi_user_id := userId; fi_product_id := id; fi_title := p_title p;
                     fi_price := p_price p; fi_status := "available";
                     fi_seller_name := users t !! p_user_id p |}.
Proof.
  unfold select_favorites. rewrite list_elem_of_omap.
  setoid_rewrite list_elem_of_filter. setoid_rewrite elem_of_elements.
  setoid_rewrite favorite_row_Some. split.
  - intros ([u id] & [Hu Hin] & p & Hp & Hs & ->). cbn in *. subst u.
    exists id, p. by rewrite Hs.
  - intros (id & p & Hin & Hp & Hs & ->). exists (userId, id).
    split; [done|]. exists p. by rewrite Hs.
Qed.

(** ** Views and statistics *)

Lemma length_filter_app {A} (P : A → Prop) `{∀ x, Decision (P x)} (l k : list A) :
  length (filter P (l ++ k)) = (length (filter P l) + length (filter P k))%nat.
Proof. by rewrite filter_app, length_app. Qed.

(** X18. Every POST /api/products/:id/view is answered 200 and counted,
    whether or not the product exists and whoever looks; the owner's
    statistics then show one view more for that product and the same number
    for every other product, and nobody but the owner is shown them. *)
Theorem view_is_counted_for_the_owner userId id viewed viewer p t s :
  products t !! id = Some p →
  let '(s', r) := post_view viewed viewer s in
  status_code r = 200
  ∧ favorites s' = favorites s
  ∧ (p_user_id p = userId →
     member "view_count" (body (get_stats userId id t s'))
     = Some (JNum (Z.of_nat (view_count s id + (if decide (viewed = id) then 1 else 0)))))
  ∧ (p_user_id p ≠ userId →
     get_stats userId id t s' = failure 404 "Product not found or unauthorized").
Proof.
  intros Hp. cbn. split; [done|]. split; [done|]. unfold get_stats. rewrite Hp. split.
  - intros Hown. rewrite decide_True by done. cbn. do 3 f_equal.
    unfold view_count. cbn. rewrite length_filter_app. f_equal.
    destruct (decide (viewed = id)) as [->|Hne].
    + by rewrite filter_cons_True.
    + by rewrite filter_cons_False.
  - intros Hown. by rewrite decide_False.
Qed.

Lemma view_is_counted_for_the_owner_witness :
  let '(s', r) := post_view 10 None {| favorites := ∅; product_views := [(10, Some 3)] |} in
  status_code r = 200
  ∧ favorites s' = ∅
  ∧ (p_user_id lamp = 1 →
     member "view_count" (body (get_stats 1 10 shop s')) = Some (JNum 2))
  ∧ (p_user_id lamp ≠ 1 →
     get_stats 1 10 shop s' = failure 404 "Product not found or unauthorized").
Proof.
  apply (view_is_counted_for_the_owner 1 10 10 None lamp shop
           {| favorites := ∅; product_views := [(10, Some 3)] |}).
  reflexivity.
Defined.

(** X19. A favourite that is added shows in the owner's statistics: after a
    POST /api/favorites that was answered 200 the favourites count of the
    product is one more than before. *)
Theorem new_favorite_is_counted userId id t s :
  status_code (post_favorites userId (Some id) t s).2 = 200 →
  favorites_count (post_favorites userId (Some id) t s).1 id
  = S (favorites_count s id).
Proof.
  destruct (post_favorites_cases userId (Some id) t)
    as [(i & p & [= <-] & Hid & Hp & Hs & Hown & Hadd) | (r & Hcode & Hr)].
  - rewrite Hadd. destruct (decide ((userId, id) ∈ favorites s)) as [Hin|Hin]; [done|].
    intros _. unfold favorites_count. cbn.
    rewrite (elements_union_singleton _ _ Hin). by rewrite filter_cons_True.
  - rewrite Hr. done.
Qed.

Lemma new_favorite_is_counted_witness :
  favorites_count
    (post_favorites 3 (Some 10) shop {| favorites := {[ (2, 10) ]}; product_views := [] |}).1
    10
  = 2%nat.
Proof.
  exact (new_favorite_is_counted 3 10 shop
           {| favorites := {[ (2, 10) ]}; product_views := [] |} eq_refl).
Defined.

(** ** The authentication middleware *)

Lemma split_not_nil sep s : split sep s ≠ [].
Proof.
  destruct s as [|c s]; [done|]. cbn [split spaceless String.append]. destruct (Ascii.eqb c sep); [done|].
  by destruct (split sep s).
Qed.

Lemma split_spaceless w : spaceless w = true → split space w = [w].
Proof.
  induction w as [|c w IH]; [done|]. cbn [split spaceless String.append]. intros [Hc Hw]%andb_prop.
  apply negb_true_iff in Hc. rewrite Hc, IH by done. done.
Qed.

Lemma append_cons c w rest : String c w +:+ rest = String c (w +:+ rest).
Proof. reflexivity. Qed.

Lemma append_empty w : w +:+ "" = w.
Proof. induction w as [|c w IH]; [done|]. by rewrite append_cons, IH. Qed.

Lemma split_word w rest :
  spaceless w = true → split space (w +:+ String space rest) = w :: split space rest.
Proof.
  induction w as [|c w IH]; [done|]. rewrite append_cons.
  cbn [split spaceless]. intros [Hc Hw]%andb_prop.
  apply negb_true_iff in Hc. rewrite Hc, IH by done. done.
Qed.

Lemma split_inv h w ws :
  split space h = w :: ws →
  spaceless w = true
  ∧ ((ws = [] ∧ h = w)
     ∨ ∃ rest, h = w +:+ String space rest ∧ split space rest = ws).
Proof.
  revert w ws. induction h as [|c h IH]; intros w ws.
  - cbn [split spaceless String.append]. intros [= <- <-]. split; [done | by left].
  - cbn [split spaceless String.append]. destruct (Ascii.eqb c space) eqn:Hc.
    + intros [= <- <-]. split; [done|]. right. exists h.
      apply Ascii.eqb_eq in Hc as ->. done.
    + destruct (split space h) as [|w' ws'] eqn:Hh; [by destruct (split_not_nil space h)|].
      intros [= <- <-]. destruct (IH w' ws' eq_refl) as [Hw' Hcases].
      split; [cbn [spaceless]; by rewrite Hc|].
      destruct Hcases as [[-> ->] | (rest & -> & Hrest)]; [by left|].
      right. by exists rest.
Qed.

Lemma token_of_header h token :
  split space h !! 1%nat = Some token
  ↔ ∃ scheme tail,
      h = scheme +:+ String space (token +:+ tail)
      ∧ spaceless scheme = true ∧ spaceless token = true
      ∧ (tail = "" ∨ ∃ more, tail = String space more).
Proof.
  split.
  - destruct (split space h) as [|scheme [|token' ws]] eqn:Hh; [done..|].
    intros [= ->]. destruct (split_inv _ _ _ Hh) as [Hscheme [[? _] | (rest & -> & Hrest)]];
      [done|].
    destruct (split_inv _ _ _ Hrest) as [Htoken [[_ ->] | (more & -> & _)]].
    + exists scheme, "". repeat split; try done; [|by left].
      by rewrite append_empty.
    + exists scheme, (String space more). repeat split; try done. right. by exists more.
  - intros (scheme & tail & -> & Hscheme & Htoken & [-> | (more & ->)]).
    + rewrite split_word by done.
      rewrite append_empty. by rewrite split_spaceless.
    + rewrite split_word by done. by rewrite split_word.
Qed.

(** X20. The middleware lets a request through, as a given user, exactly
    when the Authorization header is a word, one space, and a non-empty word
    that [jwt.verify] accepts for that user, followed by nothing or by a
    space and anything. *)
Theorem authenticateToken_passes_iff verify h user :
  authenticateToken verify (Some h) = inr user
  ↔ ∃ scheme token tail,
      h = scheme +:+ String space (token +:+ tail)
      ∧ spaceless scheme = true ∧ spaceless token = true ∧ token ≠ ""
      ∧ (tail = "" ∨ ∃ more, tail = String space more)
      ∧ verify token = Some user.
Proof.
  assert (authenticateToken verify (Some h) = inr user
          ↔ ∃ token, split space h !! 1%nat = Some token ∧ token ≠ ""
                     ∧ verify token = Some user) as ->.
  { unfold authenticateToken. destruct h as [|c h'].
    - split; [done|]. by intros (token & [=] & _).
    - generalize (String c h'). intros h.
      destruct (split space h !! 1%nat) as [[|c' token]|].
      + split; [done|]. by intros (token & [= <-] & ? & _).
      + destruct (verify (String c' token)) as [u|] eqn:Hv.
        * split; [intros [= ->]; by eexists|]. intros (t' & [= <-] & _ & Hv').
          congruence.
        * split; [done|]. intros (t' & [= <-] & _ & Hv'). congruence.
      + split; [done|]. by intros (token & [=] & _). }
  setoid_rewrite token_of_header. split.
  - intros (token & (scheme & tail & ? & ? & ? & ?) & ? & ?). exists scheme, token, tail. done.
  - intros (scheme & token & tail & ? & ? & ? & ? & ? & ?). exists token.
    split; [|done]. exists scheme, tail. done.
Qed.

(** X21. The middleware never looks at the first word of the header nor at
    what follows the second: any scheme with the same token fares as
    [Bearer] does, and so does the header with more words appended. *)
Theorem authenticateToken_ignores_scheme_and_tail verify scheme1 scheme2 token more :
  spaceless scheme1 = true → spaceless scheme2 = true → spaceless token = true →
  authenticateToken verify (Some (scheme1 +:+ String space (token +:+ String space more)))
  = authenticateToken verify (Some (scheme2 +:+ String space token)).
Proof.
  intros H1 H2 Ht. unfold authenticateToken.
  assert (∀ scheme rest A (a b : A),
            match scheme +:+ String space rest with "" => a | _ => b end = b) as Hm
    by (intros [] *; done).
  rewrite !Hm, !split_word by done. cbn. by rewrite split_spaceless.
Qed.

Lemma authenticateToken_ignores_scheme_and_tail_witness :
  authenticateToken (λ _, Some 2) (Some "Basic abc.def extra words")
  = authenticateToken (λ _, Some 2) (Some "Bearer abc.def").
Proof.
  apply (authenticateToken_ignores_scheme_and_tail (λ _, Some 2) "Basic" "Bearer" "abc.def"
           "extra words"); reflexivity.
Defined.

(** X22. Without a token no handler behind the middleware runs: when the
    header is absent, has no space, or has a space right after its first
    space or nothing after it, the request is answered 401 whatever
    [jwt.verify] would say, and the database and the queue are untouched. *)
Theorem no_token_no_handler verify authorization handler w :
  authorization = None
  ∨ (∃ h, authorization = Some h ∧ spaceless h = true)
  ∨ (∃ scheme, authorization = Some (scheme +:+ String space "")
               ∧ spaceless scheme = true)
  ∨ (∃ scheme rest, authorization = Some (scheme +:+ String space (String space rest))
                    ∧ spaceless scheme = true) →
  authenticated verify authorization handler w
  = answered (failure 401 "Access token required") w.
Proof.
  assert (∀ scheme rest A (a b : A),
            match scheme +:+ String space rest with "" => a | _ => b end = b) as Hm
    by (intros [] *; done).
  unfold authenticated, authenticateToken.
  intros [-> | [(h & -> & Hh) | [(scheme & -> & Hs) | (scheme & rest & -> & Hs)]]].
  - done.
  - destruct h as [|c h]; [done|]. by rewrite split_spaceless.
  - by rewrite Hm, split_word.
  - by rewrite Hm, split_word.
Qed.

Lemma no_token_no_handler_witness :
  authenticated (λ _, Some 2) (Some "Bearer  abc.def")
    (λ userId, post_purchase userId (js_array [10])) (open_shop uncaught)
  = answered (failure 401 "Access token required") (open_shop uncaught).
Proof.
  apply no_token_no_handler.
  right. right. right. exists "Bearer", "abc.def". split; reflexivity.
Defined.

(** ** Validation of e-mail addresses *)

Lemma matches_none s : ¬ matches re_none s.
Proof. inversion 1. Qed.

Lemma matches_empty_iff s : matches re_empty s ↔ s = [].
Proof. split; [by inversion 1 | intros ->; constructor]. Qed.

Lemma matches_class_iff p s : matches (re_class p) s ↔ ∃ c, s = [c] ∧ p c = true.
Proof.
  split.
  - inversion 1; subst. by eexists.
  - intros (c & -> & Hc). by constructor.
Qed.

Lemma matches_seq_iff r1 r2 s :
  matches (re_seq r1 r2) s ↔ ∃ s1 s2, s = s1 ++ s2 ∧ matches r1 s1 ∧ matches r2 s2.
Proof.
  split.
  - inversion 1; subst. by eexists _, _.
  - intros (s1 & s2 & -> & H1 & H2). by constructor.
Qed.

Lemma matches_alt_iff r1 r2 s : matches (re_alt r1 r2) s ↔ matches r1 s ∨ matches r2 s.
Proof.
  split.
  - inversion 1; subst; [by left | by right].
  - intros [H|H]; [by apply matches_alt_l | by apply matches_alt_r].
Qed.

Lemma matches_star_cons_inv r c s :
  matches (re_star r) (c :: s) →
  ∃ s1 s2, s = s1 ++ s2 ∧ matches r (c :: s1) ∧ matches (re_star r) s2.
Proof.
  intros H. remember (re_star r) as r' eqn:Hr. remember (c :: s) as s' eqn:Hs.
  induction H as [| | | | | |r0 s1 s2 H1 _ H2 IH2]; try done.
  injection Hr as ->. destruct s1 as [|c1 s1].
  - by apply IH2.
  - injection Hs as -> <-. by exists s1, s2.
Qed.

Lemma nullable_matches r : nullable r = true ↔ matches r [].
Proof.
  induction r as [| |p|r1 IH1 r2 IH2|r1 IH1 r2 IH2|r IH]; cbn [nullable].
  - split; [done | by intros ?%matches_none].
  - split; [constructor | done].
  - split; [done|]. by intros (c & [=] & _)%matches_class_iff.
  - rewrite andb_true_iff, IH1, IH2, matches_seq_iff. split.
    + intros [H1 H2]. by exists [], [].
    + intros (s1 & s2 & Hs & H1 & H2). symmetry in Hs.
      apply app_eq_nil in Hs as [-> ->]. done.
  - by rewrite orb_true_iff, IH1, IH2, matches_alt_iff.
  - split; [constructor | done].
Qed.

Lemma derive_matches c r s : matches (derive c r) s ↔ matches r (c :: s).
Proof.
  revert s. induction r as [| |p|r1 IH1 r2 IH2|r1 IH1 r2 IH2|r IH]; intros s; cbn [derive].
  - split; by intros ?%matches_none.
  - split; [by intros ?%matches_none | by intros [=]%matches_empty_iff].
  - rewrite matches_class_iff. destruct (p c) eqn:Hp.
    + rewrite matches_empty_iff. split.
      * intros ->. by exists c.
      * by intros (c' & [= <- ->] & _).
    + split; [by intros ?%matches_none|]. intros (c' & [= <- ->] & ?). congruence.
  - assert (matches (re_seq (derive c r1) r2) s
            ↔ ∃ s1 s2, s = s1 ++ s2 ∧ matches r1 (c :: s1) ∧ matches r2 s2) as Hseq.
    { rewrite matches_seq_iff. by setoid_rewrite IH1. }
    rewrite (matches_seq_iff r1 r2). destruct (nullable r1) eqn:Hn.
    + rewrite matches_alt_iff, Hseq, IH2. apply nullable_matches in Hn. split.
      * intros [(s1 & s2 & -> & H1 & H2) | H2].
        -- by exists (c :: s1), s2.
        -- by exists [], (c :: s).
      * intros (s1 & s2 & Hs & H1 & H2). destruct s1 as [|c1 s1].
        -- right. by rewrite Hs.
        -- injection Hs as <- ->. left. by exists s1, s2.
    + rewrite Hseq. split.
      * intros (s1 & s2 & -> & H1 & H2). by exists (c :: s1), s2.
      * intros (s1 & s2 & Hs & H1 & H2). destruct s1 as [|c1 s1].
        -- apply nullable_matches in H1. congruence.
        -- injection Hs as <- ->. by exists s1, s2.
  - by rewrite !matches_alt_iff, IH1, IH2.
  - rewrite matches_seq_iff. setoid_rewrite IH. split.
    + intros (s1 & s2 & -> & H1 & H2). by apply (matches_star_cons r (c :: s1) s2).
    + apply matches_star_cons_inv.
Qed.

Lemma regex_test_matches r s : regex_test r s = true ↔ matches r s.
Proof.
  revert r. induction s as [|c s IH]; intros r; cbn [regex_test].
  - apply nullable_matches.
  - by rewrite IH, derive_matches.
Qed.

Lemma matches_star_class p s :
  matches (re_star (re_class p)) s ↔ Forall (λ c, p c = true) s.
Proof.
  split.
  - intros H. remember (re_star (re_class p)) as r eqn:Hr.
    induction H as [| | | | | |r0 s1 s2 H1 _ H2 IH2]; try done.
    injection Hr as ->. apply matches_class_iff in H1 as (c & -> & Hc).
    constructor; [done | by apply IH2].
  - induction 1 as [|c s Hc _ IH]; [constructor|].
    apply (matches_star_cons _ [c] s); [by constructor | done].
Qed.

Lemma matches_plus_class p s :
  matches (re_plus (re_class p)) s ↔ s ≠ [] ∧ Forall (λ c, p c = true) s.
Proof.
  unfold re_plus. rewrite matches_seq_iff. setoid_rewrite matches_class_iff.
  setoid_rewrite matches_star_class. split.
  - intros (s1 & s2 & -> & (c & -> & Hc) & Hs2). split; [done | by constructor].
  - intros [Hne Hs]. destruct Hs as [|c s Hc Hs]; [done|].
    exists [c], s. split; [done|]. split; [by exists c | done].
Qed.

Lemma matches_email_re email :
  matches email_re email
  ↔ ∃ a b c,
      email = a ++ at_sign :: b ++ full_stop :: c
      ∧ a ≠ [] ∧ b ≠ [] ∧ c ≠ []
      ∧ Forall (λ x, not_space_or_at x = true) (a ++ b ++ c).
Proof.
  unfold email_re.
  split.
  - intros (a & s1 & -> & Ha & Hrest)%matches_seq_iff.
    apply matches_plus_class in Ha as [Ha1 Ha2].
    apply matches_seq_iff in Hrest as (s2 & s3 & -> & Hat & Hrest).
    apply matches_class_iff in Hat as (x & -> & ->%N.eqb_eq).
    apply matches_seq_iff in Hrest as (b & s4 & -> & Hb & Hrest).
    apply matches_plus_class in Hb as [Hb1 Hb2].
    apply matches_seq_iff in Hrest as (s5 & c & -> & Hdot & Hc).
    apply matches_class_iff in Hdot as (y & -> & ->%N.eqb_eq).
    apply matches_plus_class in Hc as [Hc1 Hc2].
    exists a, b, c. rewrite !Forall_app. done.
  - intros (a & b & c & -> & Ha & Hb & Hc & Hall).
    rewrite !Forall_app in Hall. destruct Hall as (Ha' & Hb' & Hc').
    apply matches_seq_iff. exists a, (at_sign :: b ++ full_stop :: c). split; [done|].
    split; [by apply matches_plus_class|].
    apply matches_seq_iff. exists [at_sign], (b ++ full_stop :: c). split; [done|].
    split; [apply matches_class_iff; exists at_sign; by rewrite N.eqb_refl|].
    apply matches_seq_iff. exists b, (full_stop :: c). split; [done|].
    split; [by apply matches_plus_class|].
    apply matches_seq_iff. exists [full_stop], c. split; [done|].
    split; [apply matches_class_iff; exists full_stop; by rewrite N.eqb_refl|].
    by apply matches_plus_class.
Qed.

Lemma not_space_or_at_parts l :
  Forall (λ x, not_space_or_at x = true) l →
  Forall (λ c, js_space c = false) l ∧ filter (λ c, c = at_sign) l = [].
Proof.
  induction 1 as [|x l Hx _ [IH1 IH2]]; [done|].
  unfold not_space_or_at in Hx. apply negb_true_iff, orb_false_iff in Hx as [Hs Hat].
  apply N.eqb_neq in Hat. split; [by constructor|].
  by rewrite filter_cons_False.
Qed.

(** X23. [validateEmail] accepts exactly the strings made of a local part,
    ['@'], a domain part, ['.'] and a last part, the three parts non-empty
    and free of white space and of ['@']. *)
Theorem validateEmail_accepts_iff email :
  validateEmail email = true
  ↔ ∃ a b c,
      email = a ++ at_sign :: b ++ full_stop :: c
      ∧ a ≠ [] ∧ b ≠ [] ∧ c ≠ []
      ∧ Forall (λ x, not_space_or_at x = true) (a ++ b ++ c).
Proof.
  unfold validateEmail. rewrite regex_test_matches. apply matches_email_re.
Qed.

(** X24. An address that [validateEmail] accepts holds no white space at
    all, so it is not trimmed before the test, and holds ['@'] exactly
    once. *)
Theorem accepted_email_has_one_at_and_no_space email :
  validateEmail email = true →
  Forall (λ c, js_space c = false) email
  ∧ length (filter (λ c, c = at_sign) email) = 1%nat.
Proof.
  unfold validateEmail. rewrite regex_test_matches, matches_email_re.
  intros (a & b & c & -> & _ & _ & _ & Hall).
  rewrite !Forall_app in Hall. destruct Hall as (Ha & Hb & Hc).
  apply not_space_or_at_parts in Ha as [Ha1 Ha2], Hb as [Hb1 Hb2], Hc as [Hc1 Hc2].
  split.
  - rewrite Forall_app, Forall_cons, Forall_app, Forall_cons. done.
  - rewrite filter_app, Ha2, filter_cons_True by done.
    rewrite filter_app, Hb2, filter_cons_False by done. by rewrite Hc2.
Qed.

Lemma accepted_email_has_one_at_and_no_space_witness :
  validateEmail (units "ada@eco.shop") = true
  ∧ Forall (λ c, js_space c = false) (units "ada@eco.shop")
  ∧ length (filter (λ c, c = at_sign) (units "ada@eco.shop")) = 1%nat.
Proof.
  split; [vm_compute; reflexivity|].
  apply (accepted_email_has_one_at_and_no_space (units "ada@eco.shop")).
  vm_compute; reflexivity.
Defined.
